(** * MRC execution core: routers, runnable loop, control-plane state

    A shallow embedding of
      - cpp/mrc/include/mrc/node/operators/router.hpp
      - cpp/mrc/src/internal/control_plane/state/root_state.cpp
      - src/internal/runnable/thread_engines.cpp
    with the properties of the execution-core specification stated over it.

    Conventions.  C++ member functions become functions that take the fields
    they read and return the fields they write.  A function that can throw
    returns an [outcome]; a [try]/[catch] block is [try_catch].  [std::map]
    is a [gmap]; [uint64_t] identifiers are [N]. *)

From stdpp Require Import gmap strings list fin_maps.

Local Open Scope string_scope.
Local Open Scope list_scope.

(* ===================================================================== *)
(** * Part I: definitions                                                 *)
(* ===================================================================== *)

(** ** Thrown objects and results of calls that can throw *)

(** What a C++ [throw] can carry.  The handlers in router.hpp name
    [const std::exception&], so the only distinction that matters is whether
    the thrown object derives from [std::exception] (it then has a class and
    a [what()] string) or not. *)
Inductive throwable : Type :=
| std_exception (cls what : string)
| foreign_object (descr : string).

(** A call returns, throws, or ends the process through a failed [CHECK]
    (glog's and protobuf's fatal log followed by [abort]). *)
Inductive outcome (A : Type) : Type :=
| Return (a : A)
| Raise (t : throwable)
| Abort (diagnostic : string).
Arguments Return {A} a.
Arguments Raise {A} t.
Arguments Abort {A} diagnostic.

#[global] Instance outcome_ret : MRet outcome := fun A a => Return a.

#[global] Instance outcome_bind : MBind outcome := fun A B f c =>
  match c with
  | Return a => f a
  | Raise t => Raise t
  | Abort d => Abort d
  end.

(** [try { body } catch (const std::exception& e) { handler }]: an object
    that is not a [std::exception] passes through the handler untouched. *)
Definition try_catch {A : Type} (body : outcome A) (handler : string → string → outcome A)
  : outcome A :=
  match body with
  | Raise (std_exception cls what) => handler cls what
  | other => other
  end.

(** [std::map::at]: bounds-checked access, throws [std::out_of_range]. *)
Definition map_at {K : Type} `{Countable K} {V : Type} (m : gmap K V) (key : K) : outcome V :=
  match m !! key with
  | Some v => Return v
  | None => Raise (std_exception "std::out_of_range" "map::at")
  end.

(** ** Channel statuses and a buffered channel *)

Module channel.

(** Modelled from the spec: mrc/channel/status.hpp is absent; section 3 lists
    the values returned by [await_write] and [await_read] as
    {success, closed, error, timeout}. *)
Inductive Status : Type := success | closed | error | timeout.

#[global] Instance Status_eq_dec : EqDecision Status.
Proof. solve_decision. Defined.

(** Modelled from the spec: mrc/channel/buffered_channel.hpp is absent;
    sections 3 and 4.1 give a FIFO queue with a closed flag, where no write
    succeeds after close and an accepted value is enqueued at the back.
    Suspension while full is not a status, so the capacity does not appear. *)
Record BufferedChannel (T : Type) : Type := mk_channel {
  is_closed : bool;
  queue : list T
}.
Arguments mk_channel {T} _ _.
Arguments is_closed {T} _.
Arguments queue {T} _.

Definition empty_channel {T : Type} : BufferedChannel T := mk_channel false [].

Definition await_write {T : Type} (c : BufferedChannel T) (x : T)
  : Status * BufferedChannel T :=
  if is_closed c then (closed, c)
  else (success, mk_channel false (queue c ++ [x])).

End channel.

Import channel.

(** ** MultiSourceProperties: the keyed table of downstream edges *)

Module MultiSourceProperties.
Section defs.
Context {KeyT : Type} `{Countable KeyT} {EdgeT : Type}.

(** Modelled from the spec: mrc/node/source_properties.hpp is absent.
    Section 4.2: an endpoint with multi-acceptor semantics accepts writer
    handles identified by key, and binding the same key twice replaces the
    prior binding. *)
Definition make_edge_connection (key : KeyT) (edge : EdgeT) (m_edges : gmap KeyT EdgeT)
  : gmap KeyT EdgeT :=
  <[key := edge]> m_edges.

(** Modelled from the spec: section 4.3, an item whose key has no bound
    downstream fails with [error].  The callers in router.hpp only turn a
    caught [std::exception] into [error], so the lookup of an unbound key
    throws one. *)
Definition get_writable_edge (m_edges : gmap KeyT EdgeT) (key : KeyT) : outcome EdgeT :=
  match m_edges !! key with
  | Some edge => Return edge
  | None => Raise (std_exception "std::runtime_error" "no edge connection for key")
  end.

(** Modelled from the spec: section 4.3, removing a bound key releases the
    downstream edge of that key. *)
Definition release_edge_connection (key : KeyT) (m_edges : gmap KeyT EdgeT)
  : gmap KeyT EdgeT :=
  delete key m_edges.

(** Modelled from the spec: section 4.4, the runnable releases all
    downstream edges. *)
Definition release_edge_connections (m_edges : gmap KeyT EdgeT) : gmap KeyT EdgeT := ∅.

End defs.
End MultiSourceProperties.

(** ** The shared body of every router's item handler *)

(** router.hpp repeats one sequence in [Router::on_next] (both
    specialisations), [DynamicRouterComponent::on_next] and
    [StaticRouterBase::process_one]: inside a [try], compute the key,
    optionally convert, fetch the writable edge of the key and call
    [await_write] on it; in the handler, log and return [error].  The
    functions below are written out per class as in the source.
    [await_write] is the edge's virtual member; it is a parameter here and
    answers with a status (section 7: channel statuses are return codes,
    never exceptions) together with the edge as the write left it. *)

Module RouterBase.
Section defs.
Context {KeyT : Type} `{Countable KeyT} {EdgeT : Type}.

(** [RouterBase::DownstreamEdge]: an acceptor that remembers its key. *)
Record DownstreamEdge : Type := mk_DownstreamEdge { m_key : KeyT }.

(** [get_source] is [const]: it builds the acceptor and touches no table. *)
Definition get_source (key : KeyT) : outcome DownstreamEdge :=
  Return (mk_DownstreamEdge key).

Definition set_writable_edge_handle (d : DownstreamEdge) (ingress : EdgeT)
    (m_edges : gmap KeyT EdgeT) : gmap KeyT EdgeT :=
  MultiSourceProperties.make_edge_connection (m_key d) ingress m_edges.

Definition drop_source (key : KeyT) (m_edges : gmap KeyT EdgeT) : gmap KeyT EdgeT :=
  MultiSourceProperties.release_edge_connection key m_edges.

Definition on_complete (m_edges : gmap KeyT EdgeT) : gmap KeyT EdgeT :=
  MultiSourceProperties.release_edge_connections m_edges.

End defs.
Arguments DownstreamEdge : clear implicits.
End RouterBase.

(** [Router<KeyT, InputT, OutputT>] when [InputT] is neither [OutputT] nor
    convertible to it: the item is converted before it is forwarded. *)
Module RouterConvert.
Section defs.
Context {KeyT : Type} `{Countable KeyT} {InputT OutputT EdgeT : Type}.
Variable await_write : EdgeT → OutputT → Status * EdgeT.
Variable determine_key_for_value : InputT → outcome KeyT.
Variable convert_value : InputT → outcome OutputT.

Definition on_next (m_edges : gmap KeyT EdgeT) (data : InputT)
  : outcome Status * gmap KeyT EdgeT :=
  match
    key ← determine_key_for_value data;
    output ← convert_value data;
    edge ← MultiSourceProperties.get_writable_edge m_edges key;
    mret (key, output, edge)
  with
  | Return (key, output, edge) =>
      let '(status, edge') := await_write edge output in
      (Return status, <[key := edge']> m_edges)
  | Raise t => (try_catch (Raise t) (fun _ _ => Return error), m_edges)
  | Abort d => (Abort d, m_edges)
  end.

End defs.
End RouterConvert.

(** [Router<KeyT, InputT, OutputT>] when [InputT] is [OutputT] (or converts
    implicitly): the item itself is forwarded. *)
Module Router.
Section defs.
Context {KeyT : Type} `{Countable KeyT} {InputT EdgeT : Type}.
Variable await_write : EdgeT → InputT → Status * EdgeT.
Variable determine_key_for_value : InputT → outcome KeyT.

Definition on_next (m_edges : gmap KeyT EdgeT) (data : InputT)
  : outcome Status * gmap KeyT EdgeT :=
  match
    key ← determine_key_for_value data;
    edge ← MultiSourceProperties.get_writable_edge m_edges key;
    mret (key, edge)
  with
  | Return (key, edge) =>
      let '(status, edge') := await_write edge data in
      (Return status, <[key := edge']> m_edges)
  | Raise t => (try_catch (Raise t) (fun _ _ => Return error), m_edges)
  | Abort d => (Abort d, m_edges)
  end.

End defs.
End Router.

(** [TaggedRouter<KeyT, T>]: a converting router over [std::pair<KeyT, T>]. *)
Module TaggedRouter.
Section defs.
Context {KeyT : Type} `{Countable KeyT} {T EdgeT : Type}.
Variable await_write : EdgeT → T → Status * EdgeT.

Definition determine_key_for_value (data : KeyT * T) : outcome KeyT :=
  Return (fst data).

Definition convert_value (data : KeyT * T) : outcome T :=
  let tmp := snd data in Return tmp.

Definition on_next (m_edges : gmap KeyT EdgeT) (data : KeyT * T)
  : outcome Status * gmap KeyT EdgeT :=
  RouterConvert.on_next await_write determine_key_for_value convert_value m_edges data.

End defs.
End TaggedRouter.

(** [DynamicRouterComponent<KeyT, InputT>]: the acceptors are created once,
    in the constructor, and kept in [m_downstreams]; the edges live in the
    inherited [MultiSourceProperties] table. *)
Module DynamicRouterComponent.
Section defs.
Context {KeyT : Type} `{Countable KeyT} {InputT EdgeT : Type}.
Variable await_write : EdgeT → InputT → Status * EdgeT.
Variable m_key_fn : InputT → outcome KeyT.

Record Downstream : Type := mk_Downstream { m_key : KeyT }.

Record t : Type := mk {
  m_edges : gmap KeyT EdgeT;
  m_downstreams : gmap KeyT Downstream
}.

(** The constructor: [m_downstreams[key] = make_shared<Downstream>(this, key)]
    for each route key, in order. *)
Definition make (route_keys : list KeyT) : t :=
  mk ∅ (foldl (fun downstreams key => <[key := mk_Downstream key]> downstreams) ∅ route_keys).

Definition get_source (r : t) (key : KeyT) : outcome Downstream :=
  map_at (m_downstreams r) key.

Definition has_source (r : t) (key : KeyT) : bool :=
  bool_decide (is_Some (m_downstreams r !! key)).

(** Only the acceptor is erased; the call that would release the edge is
    commented out in the source. *)
Definition drop_source (key : KeyT) (r : t) : t :=
  mk (m_edges r) (delete key (m_downstreams r)).

(** [Downstream::set_writable_edge_handle] forwards to
    [MultiWritableAcceptor::set_writable_edge_handle(m_key, ingress)], which
    binds the edge under the key. *)
Definition set_writable_edge_handle (d : Downstream) (ingress : EdgeT) (r : t) : t :=
  mk (MultiSourceProperties.make_edge_connection (m_key d) ingress (m_edges r))
     (m_downstreams r).

Definition determine_key_for_value (data : InputT) : outcome KeyT := m_key_fn data.

Definition on_next (r : t) (data : InputT) : outcome Status * t :=
  match
    key ← determine_key_for_value data;
    edge ← MultiSourceProperties.get_writable_edge (m_edges r) key;
    mret (key, edge)
  with
  | Return (key, edge) =>
      let '(status, edge') := await_write edge data in
      (Return status, mk (<[key := edge']> (m_edges r)) (m_downstreams r))
  | Raise t => (try_catch (Raise t) (fun _ _ => Return error), r)
  | Abort d => (Abort d, r)
  end.

Definition on_complete (r : t) : t :=
  mk (MultiSourceProperties.release_edge_connections (m_edges r)) (m_downstreams r).

End defs.
Arguments Downstream : clear implicits.
Arguments t : clear implicits.
Arguments t KeyT {_ _} EdgeT.
End DynamicRouterComponent.

(** [StaticRouterBase<KeyT, InputT>::process_one]. *)
Module StaticRouterBase.
Section defs.
Context {KeyT : Type} `{Countable KeyT} {InputT EdgeT : Type}.
Variable await_write : EdgeT → InputT → Status * EdgeT.
Variable determine_key_for_value : InputT → outcome KeyT.

Definition process_one (m_edges : gmap KeyT EdgeT) (data : InputT)
  : outcome Status * gmap KeyT EdgeT :=
  match
    key ← determine_key_for_value data;
    edge ← MultiSourceProperties.get_writable_edge m_edges key;
    mret (key, edge)
  with
  | Return (key, edge) =>
      let '(status, edge') := await_write edge data in
      (Return status, <[key := edge']> m_edges)
  | Raise t => (try_catch (Raise t) (fun _ _ => Return error), m_edges)
  | Abort d => (Abort d, m_edges)
  end.

End defs.
End StaticRouterBase.

(** [StaticRouterComponentBase]: driven by the upstream's push. *)
Module StaticRouterComponentBase.
Section defs.
Context {KeyT : Type} `{Countable KeyT} {InputT EdgeT : Type}.
Variable await_write : EdgeT → InputT → Status * EdgeT.
Variable determine_key_for_value : InputT → outcome KeyT.

Definition on_next (m_edges : gmap KeyT EdgeT) (data : InputT)
  : outcome Status * gmap KeyT EdgeT :=
  StaticRouterBase.process_one await_write determine_key_for_value m_edges data.

Definition on_complete (m_edges : gmap KeyT EdgeT) : gmap KeyT EdgeT :=
  MultiSourceProperties.release_edge_connections m_edges.

End defs.
End StaticRouterComponentBase.

(** ** The runnable router: pull loop and state control *)

Module runnable.

(** Modelled from the spec: mrc/runnable/runnable.hpp is absent; section 3
    gives the states {Init, Queued, Running, Stop, Kill, Completed}. *)
Inductive State : Type := Init | Queued | Running | Stop | Kill | Completed.

#[global] Instance State_eq_dec : EqDecision State.
Proof. solve_decision. Defined.

End runnable.

Import runnable.

Module StaticRouterRunnableBase.
Section defs.
Context {KeyT : Type} `{Countable KeyT} {InputT EdgeT : Type}.
Variable await_write : EdgeT → InputT → Status * EdgeT.
Variable determine_key_for_value : InputT → outcome KeyT.

(** [std::stop_source]: a flag that, once requested, stays requested. *)
Definition request_stop (m_stop_source : bool) : bool := true.
Definition stop_requested (m_stop_source : bool) : bool := m_stop_source.

Definition on_state_update (state : State) (m_stop_source : bool) : bool :=
  match state with
  | Stop => m_stop_source
  | Kill => request_stop m_stop_source
  | _ => m_stop_source
  end.

(** What the loop meets, in the order in which it observes it: a state
    update delivered before its next test of the stop token, or the return
    of one [await_read] with its status and the value left in [data].  A
    script that runs out while the loop wants to read leaves the runnable
    suspended in [await_read]. *)
Inductive event : Type :=
| StateUpdate (state : State)
| Read (status : Status) (data : InputT).

(** The member [m_stop_source], the locals [read_status] and [write_status],
    the edge table, and (for stating properties only) the items handed to
    [process_one] so far. *)
Record frame : Type := mk_frame {
  m_stop_source : bool;
  read_status : Status;
  write_status : Status;
  m_edges : gmap KeyT EdgeT;
  processed : list InputT
}.

Inductive loop_result : Type :=
| Exited (f : frame)
| Suspended (f : frame)
| Unwinding (t : throwable) (f : frame)
| Aborted (diagnostic : string) (f : frame).

Definition frame_of (r : loop_result) : frame :=
  match r with
  | Exited f | Suspended f | Unwinding _ f | Aborted _ f => f
  end.

(** The [while] of [run]:
    [!stop_requested() && (read_status = await_read(data)) == success
     && write_status == success], with body
    [write_status = process_one(std::move(data))]. *)
Fixpoint run_loop (script : list event) (f : frame) : loop_result :=
  match script with
  | StateUpdate state :: rest =>
      run_loop rest
        (mk_frame (on_state_update state (m_stop_source f))
                  (read_status f) (write_status f) (m_edges f) (processed f))
  | [] =>
      if stop_requested (m_stop_source f) then Exited f else Suspended f
  | Read status data :: rest =>
      if stop_requested (m_stop_source f) then Exited f
      else if bool_decide (status = success) && bool_decide (write_status f = success) then
        match StaticRouterBase.process_one await_write determine_key_for_value
                (m_edges f) data with
        | (Return status', m_edges') =>
            run_loop rest
              (mk_frame (m_stop_source f) status status' m_edges' (processed f ++ [data]))
        | (Raise t, m_edges') =>
            Unwinding t (mk_frame (m_stop_source f) status (write_status f) m_edges'
                                  (processed f ++ [data]))
        | (Abort d, m_edges') =>
            Aborted d (mk_frame (m_stop_source f) status (write_status f) m_edges'
                                (processed f ++ [data]))
        end
      else
        Exited (mk_frame (m_stop_source f) status (write_status f) (m_edges f) (processed f))
  end.

Definition read_failure : throwable :=
  std_exception "MrcRuntimeError" "Failed to read from upstream".
Definition write_failure : throwable :=
  std_exception "MrcRuntimeError" "Failed to write to downstream".

(** The two tests after the loop. *)
Definition exit_checks (read_status write_status : Status) : outcome () :=
  if decide (read_status = error) then Raise read_failure
  else if decide (write_status = error) then Raise write_failure
  else Return ().

Inductive run_result : Type :=
| Blocked (f : frame)
| Finished (o : outcome ()) (f : frame).

(** [run].  [read_status] is declared without an initial value, so the
    frame starts with whatever the caller passes as [indeterminate];
    [write_status] starts as [success]. *)
Definition run (script : list event) (indeterminate : Status)
    (stop_source : bool) (edges : gmap KeyT EdgeT) : run_result :=
  match run_loop script (mk_frame stop_source indeterminate success edges []) with
  | Suspended f => Blocked f
  | Unwinding t f => Finished (Raise t) f
  | Aborted d f => Finished (Abort d) f
  | Exited f =>
      Finished (exit_checks (read_status f) (write_status f))
        (mk_frame (m_stop_source f) (read_status f) (write_status f)
                  (MultiSourceProperties.release_edge_connections (m_edges f))
                  (processed f))
  end.

(** The loop as section 4.4 of the specification words it:
    [while !stop_requested && (read_status = in.await_read(x)) == success
           && (write_status = process(x)) == success].
    It follows the spec, not the source, and serves only as the term of
    comparison for [run_loop]. *)
Fixpoint spec_loop (script : list event) (f : frame) : loop_result :=
  match script with
  | StateUpdate state :: rest =>
      spec_loop rest
        (mk_frame (on_state_update state (m_stop_source f))
                  (read_status f) (write_status f) (m_edges f) (processed f))
  | [] =>
      if stop_requested (m_stop_source f) then Exited f else Suspended f
  | Read status data :: rest =>
      if stop_requested (m_stop_source f) then Exited f
      else if bool_decide (status = success) then
        match StaticRouterBase.process_one await_write determine_key_for_value
                (m_edges f) data with
        | (Return status', m_edges') =>
            let f' := mk_frame (m_stop_source f) status status' m_edges'
                               (processed f ++ [data]) in
            if bool_decide (status' = success) then spec_loop rest f' else Exited f'
        | (Raise t, m_edges') =>
            Unwinding t (mk_frame (m_stop_source f) status (write_status f) m_edges'
                                  (processed f ++ [data]))
        | (Abort d, m_edges') =>
            Aborted d (mk_frame (m_stop_source f) status (write_status f) m_edges'
                                (processed f ++ [data]))
        end
      else
        Exited (mk_frame (m_stop_source f) status (write_status f) (m_edges f) (processed f))
  end.

End defs.
Arguments event : clear implicits.
Arguments frame : clear implicits.
Arguments frame KeyT {_ _} _ _.
Arguments loop_result : clear implicits.
Arguments loop_result KeyT {_ _} _ _.
Arguments run_result : clear implicits.
Arguments run_result KeyT {_ _} _ _.
End StaticRouterRunnableBase.

(** ** Thread engines *)

Module ThreadEngines.
Section defs.
Context {CpuSet SystemResources : Type}.

(** [CpuSet::next_binding] (srf/core/bitmap.hpp is absent): hands out the
    next binding and advances the set; any such function will do. *)
Variable next_binding : CpuSet → CpuSet * CpuSet.

(** Modelled from the spec: srf/runnable/launch_options.hpp is absent;
    section 5 says a runnable declares [pe_count] and [engines_per_pe]. *)
Record LaunchOptions : Type := mk_LaunchOptions {
  engine_factory_name : string;
  pe_count : nat;
  engines_per_pe : nat
}.

Record ThreadEngine : Type := mk_ThreadEngine {
  cpu_binding : CpuSet;
  engine_system : SystemResources
}.

Record t : Type := mk {
  launch_options : LaunchOptions;
  m_cpu_set : CpuSet;
  m_system : SystemResources;
  launchers : list ThreadEngine
}.

Definition add_launcher (engine : ThreadEngine) (self : t) : t :=
  mk (launch_options self) (m_cpu_set self) (m_system self) (launchers self ++ [engine]).

(** The [for (int j = 0; j < launch_options().pe_count(); ++j)] loop, with
    [remaining] iterations to go. *)
Fixpoint for_each_pe (remaining : nat) (self : t) : t :=
  match remaining with
  | O => self
  | S remaining' =>
      let '(binding, cpu_set') := next_binding (m_cpu_set self) in
      for_each_pe remaining'
        (add_launcher (mk_ThreadEngine binding (m_system self))
           (mk (launch_options self) cpu_set' (m_system self) (launchers self)))
  end.

(** [initialize_launchers]: the loop over [engines_per_pe] is commented out
    in the source together with the two [CHECK]s, so only [pe_count] is
    read. *)
Definition initialize_launchers (self : t) : t :=
  for_each_pe (pe_count (launch_options self)) self.

(** The constructor [ThreadEngines(LaunchOptions, CpuSet, system)]. *)
Definition make (options : LaunchOptions) (cpu_set : CpuSet) (system : SystemResources) : t :=
  initialize_launchers (mk options cpu_set system []).

End defs.
Arguments LaunchOptions : clear implicits.
Arguments ThreadEngine : clear implicits.
Arguments t : clear implicits.
End ThreadEngines.

(** ** Control-plane state *)

(** Modelled from the spec: mrc/protos/architect_state.pb.h is generated and
    absent; section 6 lists the entities and their fields, and the getters
    called in root_state.cpp name them. *)
Module protos.

Module Executor.
Record t : Type := mk {
  id : N;
  peer_info : string;
  worker_ids : list N;
  assigned_pipeline_ids : list N;
  mapped_pipeline_definitions : list N
}.
End Executor.

Module Worker.
Record t : Type := mk {
  id : N;
  ucx_address : string;
  executor_id : N;
  assigned_segment_ids : list N
}.
End Worker.

Module PipelineDefinition.
Record t : Type := mk {
  id : N;
  instance_ids : list N
}.
End PipelineDefinition.

Module PipelineInstance.
Record t : Type := mk {
  id : N;
  definition_id : N;
  executor_id : N;
  manifold_ids : list N;
  segment_ids : list N
}.
End PipelineInstance.

Module ManifoldInstance.
Record t : Type := mk {
  id : N;
  pipeline_definition_id : N;
  port_name : string;
  executor_id : N;
  pipeline_instance_id : N;
  requested_output_segments : gmap N bool;
  requested_input_segments : gmap N bool
}.
End ManifoldInstance.

Module SegmentInstance.
Record t : Type := mk {
  id : N;
  executor_id : N;
  pipeline_instance_id : N;
  segment_address : N;
  pipeline_definition_id : N;
  name : string;
  worker_id : N
}.
End SegmentInstance.

(** One [{ids, entities}] pair of the root message. *)
Record table (M : Type) : Type := mk_table {
  ids : list N;
  entities : gmap N M
}.
Arguments mk_table {M} _ _.
Arguments ids {M} _.
Arguments entities {M} _.

Record ControlPlaneState : Type := mk_ControlPlaneState {
  nonce : N;
  executors : table Executor.t;
  workers : table Worker.t;
  pipeline_definitions : table PipelineDefinition.t;
  pipeline_instances : table PipelineInstance.t;
  manifold_instances : table ManifoldInstance.t;
  segment_instances : table SegmentInstance.t
}.

(** [google::protobuf::Map::at] (external library): the entity under a
    present key; on an absent key the library's check fails and the call
    does not return (the process is aborted, or, where protobuf is built
    with exceptions, its [FatalException] is thrown).  The second branch
    stands for that failure; the properties below use of it only that it is
    not a [Return]. *)
Definition Map_at {M : Type} (m : gmap N M) (key : N) : outcome M :=
  match m !! key with
  | Some v => Return v
  | None => Abort "key not found"
  end.

End protos.

Module state.

(** The live definition of the macro: [map_obj.at(id)]. *)
Definition MAP_AT_WITH_CHECK {V : Type} (map_obj : gmap N V) (id : N) : outcome V :=
  map_at map_obj id.

(** [std::map::emplace]: an existing entry is kept. *)
Definition emplace {V : Type} (key : N) (v : V) (m : gmap N V) : gmap N V :=
  match m !! key with
  | Some _ => m
  | None => <[key := v]> m
  end.

(** [ControlPlaneNormalizedState]: every view pairs a message with a shared
    pointer back to this record, so a view is its message here and the
    accessors take the record as an argument. *)
Record ControlPlaneNormalizedState : Type := mk_state {
  nonce : N;
  executors : gmap N protos.Executor.t;
  workers : gmap N protos.Worker.t;
  pipeline_definitions : gmap N protos.PipelineDefinition.t;
  pipeline_instances : gmap N protos.PipelineInstance.t;
  manifold_instances : gmap N protos.ManifoldInstance.t;
  segment_instances : gmap N protos.SegmentInstance.t
}.

(** One [for (const auto& id : ...ids()) map.emplace(id, View(..., entities().at(id)))]
    loop of [initialize]. *)
Fixpoint wrap_each {M : Type} (entities : gmap N M) (ids : list N) (views : gmap N M)
  : outcome (gmap N M) :=
  match ids with
  | [] => Return views
  | id :: rest =>
      message ← protos.Map_at entities id;
      wrap_each entities rest (emplace id message views)
  end.

Definition wrap_table {M : Type} (tbl : protos.table M) : outcome (gmap N M) :=
  wrap_each (protos.entities tbl) (protos.ids tbl) ∅.

(** [ControlPlaneNormalizedState::create]: construct, then [initialize]. *)
Definition create (root_message : protos.ControlPlaneState)
  : outcome ControlPlaneNormalizedState :=
  executors ← wrap_table (protos.executors root_message);
  workers ← wrap_table (protos.workers root_message);
  pipeline_definitions ← wrap_table (protos.pipeline_definitions root_message);
  pipeline_instances ← wrap_table (protos.pipeline_instances root_message);
  manifold_instances ← wrap_table (protos.manifold_instances root_message);
  segment_instances ← wrap_table (protos.segment_instances root_message);
  mret (mk_state (protos.nonce root_message) executors workers pipeline_definitions
         pipeline_instances manifold_instances segment_instances).

(** The loop shared by every list-valued accessor:
    [for (const auto& id : ids) child_objs.emplace(id, MAP_AT_WITH_CHECK(map, id))]. *)
Fixpoint collect {V : Type} (map_obj : gmap N V) (ids : list N) (child_objs : gmap N V)
  : outcome (gmap N V) :=
  match ids with
  | [] => Return child_objs
  | id :: rest =>
      child ← MAP_AT_WITH_CHECK map_obj id;
      collect map_obj rest (emplace id child child_objs)
  end.

Module Executor.
Definition workers (m_root_state : ControlPlaneNormalizedState) (m_message : protos.Executor.t)
  : outcome (gmap N protos.Worker.t) :=
  collect (workers m_root_state) (protos.Executor.worker_ids m_message) ∅.
Definition assigned_pipelines (m_root_state : ControlPlaneNormalizedState)
    (m_message : protos.Executor.t) : outcome (gmap N protos.PipelineInstance.t) :=
  collect (pipeline_instances m_root_state) (protos.Executor.assigned_pipeline_ids m_message) ∅.
Definition mapped_pipeline_definitions (m_root_state : ControlPlaneNormalizedState)
    (m_message : protos.Executor.t) : outcome (gmap N protos.PipelineDefinition.t) :=
  collect (pipeline_definitions m_root_state)
    (protos.Executor.mapped_pipeline_definitions m_message) ∅.
End Executor.

Module Worker.
Definition executor_id (m_message : protos.Worker.t) : N := protos.Worker.executor_id m_message.
Definition executor (m_root_state : ControlPlaneNormalizedState) (m_message : protos.Worker.t)
  : outcome protos.Executor.t :=
  MAP_AT_WITH_CHECK (executors m_root_state) (executor_id m_message).
Definition assigned_segments (m_root_state : ControlPlaneNormalizedState)
    (m_message : protos.Worker.t) : outcome (gmap N protos.SegmentInstance.t) :=
  collect (segment_instances m_root_state) (protos.Worker.assigned_segment_ids m_message) ∅.
End Worker.

Module PipelineDefinition.
Definition instances (m_root_state : ControlPlaneNormalizedState)
    (m_message : protos.PipelineDefinition.t) : outcome (gmap N protos.PipelineInstance.t) :=
  collect (pipeline_instances m_root_state) (protos.PipelineDefinition.instance_ids m_message) ∅.
End PipelineDefinition.

Module PipelineInstance.
Definition definition (m_root_state : ControlPlaneNormalizedState)
    (m_message : protos.PipelineInstance.t) : outcome protos.PipelineDefinition.t :=
  MAP_AT_WITH_CHECK (pipeline_definitions m_root_state)
    (protos.PipelineInstance.definition_id m_message).
Definition manifolds (m_root_state : ControlPlaneNormalizedState)
    (m_message : protos.PipelineInstance.t) : outcome (gmap N protos.ManifoldInstance.t) :=
  collect (manifold_instances m_root_state) (protos.PipelineInstance.manifold_ids m_message) ∅.
Definition segments (m_root_state : ControlPlaneNormalizedState)
    (m_message : protos.PipelineInstance.t) : outcome (gmap N protos.SegmentInstance.t) :=
  collect (segment_instances m_root_state) (protos.PipelineInstance.segment_ids m_message) ∅.
End PipelineInstance.

Module ManifoldInstance.
Definition pipeline_definition (m_root_state : ControlPlaneNormalizedState)
    (m_message : protos.ManifoldInstance.t) : outcome protos.PipelineDefinition.t :=
  MAP_AT_WITH_CHECK (pipeline_definitions m_root_state)
    (protos.ManifoldInstance.pipeline_definition_id m_message).
Definition pipeline_instance (m_root_state : ControlPlaneNormalizedState)
    (m_message : protos.ManifoldInstance.t) : outcome protos.PipelineInstance.t :=
  MAP_AT_WITH_CHECK (pipeline_instances m_root_state)
    (protos.ManifoldInstance.pipeline_instance_id m_message).
End ManifoldInstance.

Module SegmentInstance.
Definition pipeline_definition (m_root_state : ControlPlaneNormalizedState)
    (m_message : protos.SegmentInstance.t) : outcome protos.PipelineDefinition.t :=
  MAP_AT_WITH_CHECK (pipeline_definitions m_root_state)
    (protos.SegmentInstance.pipeline_definition_id m_message).
Definition worker (m_root_state : ControlPlaneNormalizedState)
    (m_message : protos.SegmentInstance.t) : outcome protos.Worker.t :=
  MAP_AT_WITH_CHECK (workers m_root_state) (protos.SegmentInstance.worker_id m_message).
Definition pipeline_instance (m_root_state : ControlPlaneNormalizedState)
    (m_message : protos.SegmentInstance.t) : outcome protos.PipelineInstance.t :=
  MAP_AT_WITH_CHECK (pipeline_instances m_root_state)
    (protos.SegmentInstance.pipeline_instance_id m_message).
End SegmentInstance.

End state.

(** ** ResourceState: list-valued accessors backed by function-local statics *)

Module ResourceState.
Section defs.
(** [mrc::protos::ResourceDefinition], the element type; its fields play no
    part here. *)
Context {ResourceDefinition : Type}.

(** Modelled from the spec: [protos::ResourceState] (generated, absent);
    section 6 gives the two statuses, and the getters [dependees()] and
    [dependers()] are the repeated fields read in root_state.cpp. *)
Record message : Type := mk_message {
  requested_status : Z;
  actual_status : Z;
  msg_dependees : list ResourceDefinition;
  msg_dependers : list ResourceDefinition
}.

(** The storage of the two [static std::vector] locals.  Being
    function-local statics they exist once per process, not once per
    [ResourceState] object. *)
Record statics : Type := mk_statics {
  dependees_vector : list ResourceDefinition;
  dependers_vector : list ResourceDefinition
}.

(** A [const std::vector<...>&] can only designate one of the two. *)
Inductive vector_ref : Type :=
| ref_dependees_vector
| ref_dependers_vector.

Definition deref (r : vector_ref) (s : statics) : list ResourceDefinition :=
  match r with
  | ref_dependees_vector => dependees_vector s
  | ref_dependers_vector => dependers_vector s
  end.

Definition clear (v : list ResourceDefinition) : list ResourceDefinition := [].

Definition push_back (v : list ResourceDefinition) (x : ResourceDefinition)
  : list ResourceDefinition :=
  v ++ [x].

Definition dependees (m_message : message) (s : statics) : vector_ref * statics :=
  let cleared := clear (dependees_vector s) in
  let filled := foldl push_back cleared (msg_dependees m_message) in
  (ref_dependees_vector, mk_statics filled (dependers_vector s)).

Definition dependers (m_message : message) (s : statics) : vector_ref * statics :=
  let cleared := clear (dependers_vector s) in
  let filled := foldl push_back cleared (msg_dependers m_message) in
  (ref_dependers_vector, mk_statics (dependees_vector s) filled).

End defs.
Arguments message : clear implicits.
Arguments statics : clear implicits.
End ResourceState.

(** ** ControlPlaneStateBase: equality of state wrappers *)

Module ControlPlaneStateBase.

(** A protobuf message as a tree of fields in canonical order: a field is
    its number with a varint (integers, enums, booleans), a length-delimited
    payload (strings, bytes) or a nested message; a repeated field occurs
    once per element. *)
#[local] Unset Elimination Schemes.
Inductive Field : Type :=
| Varint (number : N) (value : N)
| LengthDelimited (number : N) (value : string)
| Nested (number : N) (fields : list Field).
#[local] Set Elimination Schemes.

Section field_induction.
Variable P : Field → Prop.
Hypothesis P_Varint : ∀ number value, P (Varint number value).
Hypothesis P_LengthDelimited : ∀ number value, P (LengthDelimited number value).
Hypothesis P_Nested : ∀ number fields, Forall P fields → P (Nested number fields).

(** Induction over a message tree, with the hypothesis available for every
    field of a nested message. *)
Fixpoint Field_ind (f : Field) : P f :=
  match f with
  | Varint number value => P_Varint number value
  | LengthDelimited number value => P_LengthDelimited number value
  | Nested number fields =>
      P_Nested number fields
        ((fix all (fs : list Field) : Forall P fs :=
            match fs with
            | [] => List.Forall_nil P
            | x :: fs' => List.Forall_cons P x fs' (Field_ind x) (all fs')
            end) fields)
  end.

End field_induction.

Record Message : Type := mk_Message {
  descriptor : string;
  fields : list Field
}.

(** [google::protobuf::util::MessageDifferencer::Equals] (external
    library): messages of the same descriptor are compared field by field,
    descending into nested messages. *)
Fixpoint Field_equals (a b : Field) : bool :=
  match a, b with
  | Varint i x, Varint j y => bool_decide (i = j) && bool_decide (x = y)
  | LengthDelimited i x, LengthDelimited j y => bool_decide (i = j) && bool_decide (x = y)
  | Nested i xs, Nested j ys =>
      bool_decide (i = j) &&
      (fix fields_equal (xs ys : list Field) {struct xs} : bool :=
         match xs, ys with
         | [], [] => true
         | x :: xs', y :: ys' => Field_equals x y && fields_equal xs' ys'
         | _, _ => false
         end) xs ys
  | _, _ => false
  end.

Fixpoint fields_equal (xs ys : list Field) : bool :=
  match xs, ys with
  | [], [] => true
  | x :: xs', y :: ys' => Field_equals x y && fields_equal xs' ys'
  | _, _ => false
  end.

Definition Equals (a b : Message) : bool :=
  bool_decide (descriptor a = descriptor b) && fields_equal (fields a) (fields b).

Section defs.
(** [google::protobuf::util::MessageToJsonString] (external library). *)
Variable MessageToJsonString : Message → string.

(** A wrapper keeps a reference to a message that lives elsewhere; [heap]
    gives the message stored at each address. *)
Record t : Type := mk { m_internal_message : N }.

(** [operator==]: the two JSON strings are computed and never read.  [None]
    stands for a wrapper whose reference dangles. *)
Definition operator_eq (heap : gmap N Message) (self other : t) : option bool :=
  this_message ← heap !! m_internal_message self;
  other_message ← heap !! m_internal_message other;
  let left := MessageToJsonString this_message in
  let right := MessageToJsonString other_message in
  Some (Equals this_message other_message).

End defs.
End ControlPlaneStateBase.

(** ** Properties stated over the definitions above *)

Section predicates.
Context {KeyT : Type} `{Countable KeyT} {InputT OutputT EdgeT : Type}.

(** What one call of an item handler does, by the way the key function and
    the convert function end and by whether the key is bound. *)
Definition handles_every_item
    (await_write : EdgeT → OutputT → Status * EdgeT)
    (key_fn : InputT → outcome KeyT) (convert : InputT → outcome OutputT)
    (handler : gmap KeyT EdgeT → InputT → outcome Status * gmap KeyT EdgeT) : Prop :=
  ∀ (m_edges : gmap KeyT EdgeT) (data : InputT),
    (∀ key output, key_fn data = Return key → convert data = Return output →
       m_edges !! key = None →
       handler m_edges data = (Return error, m_edges)) ∧
    (∀ key output edge, key_fn data = Return key → convert data = Return output →
       m_edges !! key = Some edge →
       handler m_edges data =
         (Return (await_write edge output).1, <[key := (await_write edge output).2]> m_edges)) ∧
    (∀ cls what, key_fn data = Raise (std_exception cls what) →
       handler m_edges data = (Return error, m_edges)) ∧
    (∀ key cls what, key_fn data = Return key →
       convert data = Raise (std_exception cls what) →
       handler m_edges data = (Return error, m_edges)) ∧
    (∀ descr, key_fn data = Raise (foreign_object descr) →
       handler m_edges data = (Raise (foreign_object descr), m_edges)) ∧
    (∀ key descr, key_fn data = Return key →
       convert data = Raise (foreign_object descr) →
       handler m_edges data = (Raise (foreign_object descr), m_edges)).

End predicates.

(** [DynamicRouterComponent::on_next] seen as a handler over the edge table,
    with the acceptors [downstreams] held fixed. *)
Definition dynamic_handler {KeyT : Type} `{Countable KeyT} {InputT EdgeT : Type}
    (await_write : EdgeT → InputT → Status * EdgeT) (key_fn : InputT → outcome KeyT)
    (downstreams : gmap KeyT (DynamicRouterComponent.Downstream KeyT))
    (m_edges : gmap KeyT EdgeT) (data : InputT) : outcome Status * gmap KeyT EdgeT :=
  let '(o, r) := DynamicRouterComponent.on_next await_write key_fn
                   (DynamicRouterComponent.mk m_edges downstreams) data in
  (o, DynamicRouterComponent.m_edges r).

(** Push a list of items through a handler, one [on_next] after the other,
    collecting the statuses. *)
Fixpoint push_all {S InputT : Type} (handler : S → InputT → outcome Status * S)
    (s : S) (items : list InputT) : list (outcome Status) * S :=
  match items with
  | [] => ([], s)
  | x :: rest =>
      let '(o, s') := handler s x in
      let '(os, s'') := push_all handler s' rest in
      (o :: os, s'')
  end.

(** What a run of the loop leaves behind for the downstreams: the items
    handed to [process_one], the edge table and the last write status. *)
Definition effects {KeyT : Type} `{Countable KeyT} {InputT EdgeT : Type}
    (r : StaticRouterRunnableBase.loop_result KeyT InputT EdgeT)
  : list InputT * gmap KeyT EdgeT * Status :=
  let f := StaticRouterRunnableBase.frame_of r in
  (StaticRouterRunnableBase.processed f,
   StaticRouterRunnableBase.m_edges f,
   StaticRouterRunnableBase.write_status f).

(** An item whose key is bound to an open buffered channel. *)
Definition deliverable {KeyT : Type} `{Countable KeyT} {InputT : Type}
    (key_fn : InputT → outcome KeyT)
    (m_edges : gmap KeyT (BufferedChannel InputT)) (x : InputT) : Prop :=
  ∃ key c, key_fn x = Return key ∧ m_edges !! key = Some c ∧ is_closed c = false.

(** What the single-reference and the list-valued accessors of the
    normalized state do with the ids they are given. *)
Definition out_of_range : throwable := std_exception "std::out_of_range" "map::at".

Definition resolves_one {M V : Type}
    (accessor : state.ControlPlaneNormalizedState → M → outcome V)
    (map_of : state.ControlPlaneNormalizedState → gmap N V) (id_of : M → N) : Prop :=
  ∀ m_root_state m_message,
    accessor m_root_state m_message
    = match map_of m_root_state !! id_of m_message with
      | Some entity => Return entity
      | None => Raise out_of_range
      end.

Definition resolves_each {M V : Type}
    (accessor : state.ControlPlaneNormalizedState → M → outcome (gmap N V))
    (map_of : state.ControlPlaneNormalizedState → gmap N V) (ids_of : M → list N) : Prop :=
  ∀ m_root_state m_message,
    (Forall (fun id => is_Some (map_of m_root_state !! id)) (ids_of m_message) →
     ∃ child_objs, accessor m_root_state m_message = Return child_objs ∧
       ∀ id, child_objs !! id
             = if decide (id ∈ ids_of m_message) then map_of m_root_state !! id else None) ∧
    (¬ Forall (fun id => is_Some (map_of m_root_state !! id)) (ids_of m_message) →
     accessor m_root_state m_message = Raise out_of_range).

(** ** Publisher manager: tagged instances and endpoints *)

(** [PublisherManager] of src/internal/pubsub/publisher_manager.hpp, as far
    as [update_tagged_instances] and the two getters go. *)
Module PublisherManager.
Section defs.
Context {InstanceID Endpoint : Type}.

(** [PubSubBase::role_subscriber()] (pub_sub_base.hpp is absent): the name
    of the subscriber role. *)
Variable role_subscriber : string.

(** [data_plane().client().endpoint_shared(instance_id)] (absent): the
    endpoint the data-plane client hands out for an instance. *)
Variable endpoint_shared : InstanceID → Endpoint.

(** [DCHECK_EQ] is compiled in only when [NDEBUG] is not defined. *)
Variable debug_build : bool.

(** The two members, and what [m_publisher] was last handed. *)
Record t : Type := mk {
  m_tagged_instances : gmap N InstanceID;
  m_tagged_endpoints : gmap N Endpoint;
  publisher_tagged_instances : gmap N InstanceID
}.

Definition DCHECK_EQ (a b : string) : outcome () :=
  if debug_build && negb (bool_decide (a = b)) then Abort "Check failed" else Return ().

(** [update_tagged_instances]: the instances are replaced by assignment, and
    the loop writes [m_tagged_endpoints[tag]] for every entry of the new
    map; nothing erases an endpoint. *)
Definition update_tagged_instances (role : string) (tagged_instances : gmap N InstanceID)
    (self : t) : outcome t :=
  _ ← DCHECK_EQ role role_subscriber;
  let instances := tagged_instances in
  let endpoints :=
    foldl (fun endpoints '(tag, instance_id) =>
             <[tag := endpoint_shared instance_id]> endpoints)
          (m_tagged_endpoints self) (map_to_list instances) in
  mret (mk instances endpoints tagged_instances).

Definition tagged_instances (self : t) : gmap N InstanceID := m_tagged_instances self.
Definition tagged_endpoints (self : t) : gmap N Endpoint := m_tagged_endpoints self.

End defs.
Arguments t : clear implicits.
End PublisherManager.

(** ** Further notions used in Part III *)

(** Whether the key function sends an item to downstream [k]. *)
Definition routes_to {KeyT : Type} `{Countable KeyT} {InputT : Type}
    (key_fn : InputT → outcome KeyT) (k : KeyT) (x : InputT) : bool :=
  match key_fn x with
  | Return k' => bool_decide (k' = k)
  | _ => false
  end.

(** The items a script delivers: the data of the reads that return
    [success], in order. *)
Fixpoint successful_reads {InputT : Type}
    (script : list (StaticRouterRunnableBase.event InputT)) : list InputT :=
  match script with
  | [] => []
  | StaticRouterRunnableBase.Read status data :: rest =>
      if bool_decide (status = success) then data :: successful_reads rest
      else successful_reads rest
  | StaticRouterRunnableBase.StateUpdate _ :: rest => successful_reads rest
  end.

(** The stop token after a run of state updates, one [on_state_update] each. *)
Definition after_updates (updates : list State) (stop_source : bool) : bool :=
  foldl (fun token state => StaticRouterRunnableBase.on_state_update state token)
        stop_source updates.

(** The first [n] results of [next_binding], and the set left after them. *)
Fixpoint bindings {CpuSet : Type} (next_binding : CpuSet → CpuSet * CpuSet)
    (n : nat) (cpu_set : CpuSet) : list CpuSet :=
  match n with
  | O => []
  | S n' => (next_binding cpu_set).1 :: bindings next_binding n' (next_binding cpu_set).2
  end.

Fixpoint advance {CpuSet : Type} (next_binding : CpuSet → CpuSet * CpuSet)
    (n : nat) (cpu_set : CpuSet) : CpuSet :=
  match n with
  | O => cpu_set
  | S n' => advance next_binding n' (next_binding cpu_set).2
  end.

(** A table of the root message whose every listed id has an entity. *)
Definition complete {M : Type} (tbl : protos.table M) : Prop :=
  Forall (fun id => is_Some (protos.entities tbl !! id)) (protos.ids tbl).

#[global] Instance complete_dec {M : Type} (tbl : protos.table M) : Decision (complete tbl).
Proof. unfold complete. apply _. Defined.

(** What the normalized view keeps of a table: the listed ids, each with
    its entity. *)
Definition keeps_listed {M : Type} (tbl : protos.table M) (views : gmap N M) : Prop :=
  ∀ id, views !! id
        = if decide (id ∈ protos.ids tbl) then protos.entities tbl !! id else None.

(* ===================================================================== *)
(** * Part II: lemmas and theorems                                        *)
(* ===================================================================== *)

(** ** Routers *)

Section router_lemmas.
Context {KeyT : Type} `{Countable KeyT} {InputT OutputT EdgeT : Type}.
Implicit Types m_edges : gmap KeyT EdgeT.

Lemma get_writable_edge_bound m_edges (key : KeyT) (edge : EdgeT) :
  m_edges !! key = Some edge →
  MultiSourceProperties.get_writable_edge m_edges key = Return edge.
Proof. intros Hb. unfold MultiSourceProperties.get_writable_edge. by rewrite Hb. Qed.

Lemma get_writable_edge_unbound m_edges (key : KeyT) :
  m_edges !! key = None →
  ∃ what, MultiSourceProperties.get_writable_edge m_edges key
          = Raise (std_exception "std::runtime_error" what).
Proof. intros Hb. unfold MultiSourceProperties.get_writable_edge. rewrite Hb. eauto. Qed.

Lemma handles_every_item_ext
    (await_write : EdgeT → OutputT → Status * EdgeT)
    (key_fn : InputT → outcome KeyT) (convert : InputT → outcome OutputT)
    (h h' : gmap KeyT EdgeT → InputT → outcome Status * gmap KeyT EdgeT) :
  (∀ m_edges data, h' m_edges data = h m_edges data) →
  handles_every_item await_write key_fn convert h →
  handles_every_item await_write key_fn convert h'.
Proof.
  intros Heq Hh m_edges data. rewrite Heq. apply Hh.
Qed.

Lemma converting_router_handles
    (await_write : EdgeT → OutputT → Status * EdgeT)
    (key_fn : InputT → outcome KeyT) (convert : InputT → outcome OutputT) :
  handles_every_item await_write key_fn convert
    (RouterConvert.on_next await_write key_fn convert).
Proof.
  intros m_edges data. unfold RouterConvert.on_next, mbind, outcome_bind, mret, outcome_ret.
  repeat split.
  - intros key output -> -> Hb. unfold MultiSourceProperties.get_writable_edge. by rewrite Hb.
  - intros key output edge -> -> Hb.
    unfold MultiSourceProperties.get_writable_edge. rewrite Hb.
    by destruct (await_write edge output).
  - by intros cls what ->.
  - by intros key cls what -> ->.
  - by intros descr ->.
  - by intros key descr -> ->.
Qed.

Lemma forwarding_router_handles
    (await_write : EdgeT → InputT → Status * EdgeT) (key_fn : InputT → outcome KeyT) :
  handles_every_item await_write key_fn Return (Router.on_next await_write key_fn).
Proof.
  intros m_edges data. unfold Router.on_next, mbind, outcome_bind, mret, outcome_ret.
  repeat split.
  - intros key output -> [= <-] Hb.
    unfold MultiSourceProperties.get_writable_edge. by rewrite Hb.
  - intros key output edge -> [= <-] Hb.
    unfold MultiSourceProperties.get_writable_edge. rewrite Hb.
    by destruct (await_write edge data).
  - by intros cls what ->.
  - by intros key cls what _ [=].
  - by intros descr ->.
  - by intros key descr _ [=].
Qed.

Lemma process_one_is_on_next
    (await_write : EdgeT → InputT → Status * EdgeT) (key_fn : InputT → outcome KeyT)
    m_edges (data : InputT) :
  StaticRouterBase.process_one await_write key_fn m_edges data
  = Router.on_next await_write key_fn m_edges data.
Proof. reflexivity. Qed.

Lemma dynamic_handler_is_on_next
    (await_write : EdgeT → InputT → Status * EdgeT) (key_fn : InputT → outcome KeyT)
    downstreams m_edges (data : InputT) :
  dynamic_handler await_write key_fn downstreams m_edges data
  = Router.on_next await_write key_fn m_edges data.
Proof.
  unfold dynamic_handler, DynamicRouterComponent.on_next, Router.on_next,
    DynamicRouterComponent.determine_key_for_value. simpl.
  destruct (key_fn data) as [key|t|d]; simpl; try done.
  - destruct (MultiSourceProperties.get_writable_edge m_edges key) as [edge|t|d]; simpl;
      try done.
    by destruct (await_write edge data).
Qed.

(** No handler of [DynamicRouterComponent] touches the acceptors. *)
Lemma dynamic_on_next_downstreams
    (await_write : EdgeT → InputT → Status * EdgeT) (key_fn : InputT → outcome KeyT)
    (r : DynamicRouterComponent.t KeyT EdgeT) (data : InputT) :
  DynamicRouterComponent.m_downstreams
    (DynamicRouterComponent.on_next await_write key_fn r data).2
  = DynamicRouterComponent.m_downstreams r.
Proof.
  unfold DynamicRouterComponent.on_next, DynamicRouterComponent.determine_key_for_value.
  destruct (key_fn data) as [key|t|d]; simpl; try done.
  destruct (MultiSourceProperties.get_writable_edge _ key) as [edge|t|d]; simpl; try done.
  by destruct (await_write edge data).
Qed.

End router_lemmas.

Section router_theorems.
Context {KeyT : Type} `{Countable KeyT} {InputT OutputT EdgeT : Type}.
Implicit Types m_edges : gmap KeyT EdgeT.

(** C1 (as amended).  Every item handler of router.hpp --
    [Router::on_next] with and without conversion,
    [DynamicRouterComponent::on_next], [StaticRouterBase::process_one] and
    [StaticRouterComponentBase::on_next] -- ends in one of these ways and no
    other: when the key has no bound downstream it returns [error] and
    leaves the edge table as it was; when the key is bound it calls
    [await_write] once, on the edge of that key, stores the edge back and
    returns the status of that call; when the key function or the convert
    function throws a [std::exception] it returns [error]; when one of them
    throws an object that is not a [std::exception] the handler does not
    catch it and the object propagates to the caller. *)
Theorem router_handles_every_item
    (write_out : EdgeT → OutputT → Status * EdgeT)
    (write_in : EdgeT → InputT → Status * EdgeT)
    (key_fn : InputT → outcome KeyT) (convert : InputT → outcome OutputT)
    (downstreams : gmap KeyT (DynamicRouterComponent.Downstream KeyT)) :
  handles_every_item write_out key_fn convert (RouterConvert.on_next write_out key_fn convert) ∧
  handles_every_item write_in key_fn Return (Router.on_next write_in key_fn) ∧
  handles_every_item write_in key_fn Return (dynamic_handler write_in key_fn downstreams) ∧
  handles_every_item write_in key_fn Return (StaticRouterBase.process_one write_in key_fn) ∧
  handles_every_item write_in key_fn Return (StaticRouterComponentBase.on_next write_in key_fn).
Proof.
  split; [apply converting_router_handles|].
  split; [apply forwarding_router_handles|].
  split.
  { refine (handles_every_item_ext _ _ _ (Router.on_next write_in key_fn) _ _
              (forwarding_router_handles _ _)).
    intros m_edges data. apply dynamic_handler_is_on_next. }
  split; apply forwarding_router_handles.
Qed.

End router_theorems.

(** C1, the claim as worded fails: a key function that throws an [int]
    raises an exception, and [on_next] does not return [error] for it. *)
Lemma on_next_lets_foreign_object_escape :
  let key_fn : nat → outcome string := fun _ => Raise (foreign_object "int") in
  let result := Router.on_next channel.await_write key_fn ∅ 7 in
  (∃ t, key_fn 7 = Raise t) ∧
  result.1 = Raise (foreign_object "int") ∧
  result.1 ≠ Return error.
Proof.
  simpl. split; [eauto|]. split; [reflexivity|discriminate].
Qed.

(** C1 at a concrete router: downstream "a" is bound to an open channel and
    the key function throws a [std::runtime_error] on the tag "boom".  An
    item for "a" is written and its status returned, an item for the unbound
    "z" fails with [error], and so does the item on which the key function
    throws. *)
Lemma router_handles_every_item_witness :
  let key_fn : string * Z → outcome string := fun data =>
    if decide (data.1 = "boom") then Raise (std_exception "std::runtime_error" "bad key")
    else Return data.1 in
  let edges : gmap string (BufferedChannel (string * Z)) := {["a" := empty_channel]} in
  Router.on_next channel.await_write key_fn edges ("a", 1%Z)
    = (Return success, {["a" := mk_channel false [("a", 1%Z)]]}) ∧
  Router.on_next channel.await_write key_fn edges ("z", 1%Z) = (Return error, edges) ∧
  Router.on_next channel.await_write key_fn edges ("boom", 1%Z) = (Return error, edges).
Proof.
  intros key_fn edges.
  destruct (router_handles_every_item (OutputT := string * Z)
              channel.await_write channel.await_write key_fn Return ∅)
    as (_ & Hforward & _).
  split; [|split].
  - destruct (Hforward edges ("a", 1%Z)) as (_ & Hbound & _).
    rewrite (Hbound "a" ("a", 1%Z) empty_channel eq_refl eq_refl eq_refl).
    vm_compute. reflexivity.
  - destruct (Hforward edges ("z", 1%Z)) as (Hunbound & _).
    exact (Hunbound "z" ("z", 1%Z) eq_refl eq_refl eq_refl).
  - destruct (Hforward edges ("boom", 1%Z)) as (_ & _ & Hstd & _).
    exact (Hstd "std::runtime_error" "bad key" eq_refl).
Defined.

(** ** Dynamic routers: the acceptor table and the edge table *)

Section dynamic_router.
Context {KeyT : Type} `{Countable KeyT} {InputT EdgeT : Type}.
Variable await_write : EdgeT → InputT → Status * EdgeT.
Variable key_fn : InputT → outcome KeyT.

Lemma make_downstreams_lookup (route_keys : list KeyT) (key : KeyT)
    (acc : gmap KeyT (DynamicRouterComponent.Downstream KeyT)) :
  foldl (fun downstreams k => <[k := DynamicRouterComponent.mk_Downstream k]> downstreams)
        acc route_keys !! key
  = if decide (key ∈ route_keys) then Some (DynamicRouterComponent.mk_Downstream key)
    else acc !! key.
Proof.
  revert acc. induction route_keys as [|k ks IH]; intros acc.
  - rewrite decide_False; [done|apply not_elem_of_nil].
  - cbn [foldl]. rewrite IH. destruct (decide (key ∈ ks)) as [Hks|Hks].
    + rewrite decide_True; [done|by right].
    + destruct (decide (key = k)) as [->|Hne].
      * rewrite decide_True; [|by left]. by rewrite lookup_insert_eq.
      * rewrite decide_False; [by rewrite lookup_insert_ne|].
        intros Hin. apply elem_of_cons in Hin. destruct Hin; done.
Qed.

Lemma dynamic_get_source_made (route_keys : list KeyT) (key : KeyT) :
  DynamicRouterComponent.get_source (EdgeT := EdgeT)
    (DynamicRouterComponent.make route_keys) key
  = if decide (key ∈ route_keys) then Return (DynamicRouterComponent.mk_Downstream key)
    else Raise (std_exception "std::out_of_range" "map::at").
Proof.
  unfold DynamicRouterComponent.get_source, DynamicRouterComponent.make, map_at. simpl.
  rewrite make_downstreams_lookup. by case_decide.
Qed.

(** [drop_source] of the dynamic component leaves the edge table alone, so
    the item handler answers after it exactly as before it. *)
Lemma dynamic_drop_source_edges (key : KeyT) (r : DynamicRouterComponent.t KeyT EdgeT) :
  DynamicRouterComponent.m_edges (DynamicRouterComponent.drop_source key r)
  = DynamicRouterComponent.m_edges r.
Proof. reflexivity. Qed.

Lemma dynamic_drop_source_on_next (key : KeyT) (r : DynamicRouterComponent.t KeyT EdgeT)
    (data : InputT) :
  (DynamicRouterComponent.on_next await_write key_fn
     (DynamicRouterComponent.drop_source key r) data).1
  = (DynamicRouterComponent.on_next await_write key_fn r data).1.
Proof.
  unfold DynamicRouterComponent.on_next, DynamicRouterComponent.determine_key_for_value.
  rewrite dynamic_drop_source_edges.
  destruct (key_fn data) as [k|t|d]; simpl; try done.
  destruct (MultiSourceProperties.get_writable_edge _ k) as [edge|t|d]; simpl; try done.
  by destruct (await_write edge data).
Qed.

(** The sibling: [RouterBase::drop_source] releases the edge, and an item
    for the dropped key then fails with [error]. *)
Lemma router_base_drop_source_then_error (key : KeyT) (m_edges : gmap KeyT EdgeT)
    (data : InputT) :
  key_fn data = Return key →
  Router.on_next await_write key_fn (RouterBase.drop_source key m_edges) data
  = (Return error, RouterBase.drop_source key m_edges).
Proof.
  intros Hk.
  destruct (forwarding_router_handles await_write key_fn
              (RouterBase.drop_source key m_edges) data) as (Hunbound & _).
  apply (Hunbound key data Hk eq_refl).
  unfold RouterBase.drop_source, MultiSourceProperties.release_edge_connection.
  apply lookup_delete_eq.
Qed.

End dynamic_router.

(** C2, evaluated on the code.  A dynamic router component is built over
    the key "a", an open channel is bound as its downstream, and
    [drop_source "a"] is called.  The acceptor is gone ([has_source] is
    false), but the edge is still bound: the next item with key "a" is
    written to the channel and [on_next] returns [success], not [error]. *)
Theorem dynamic_drop_source_keeps_routing :
  let key_fn : string * Z → outcome string := fun data => Return data.1 in
  let on_next := DynamicRouterComponent.on_next channel.await_write key_fn in
  let r0 : DynamicRouterComponent.t string (BufferedChannel (string * Z)) :=
    DynamicRouterComponent.make ["a"] in
  let a := DynamicRouterComponent.mk_Downstream "a" in
  let r1 := DynamicRouterComponent.set_writable_edge_handle a empty_channel r0 in
  let r2 := DynamicRouterComponent.drop_source "a" r1 in
  DynamicRouterComponent.get_source r0 "a" = Return a ∧
  DynamicRouterComponent.has_source r1 "a" = true ∧
  DynamicRouterComponent.has_source r2 "a" = false ∧
  (on_next r2 ("a", 5%Z)).1 = Return success ∧
  queue <$> (DynamicRouterComponent.m_edges (on_next r2 ("a", 5%Z)).2 !! "a")
    = Some [("a", 5%Z)].
Proof. vm_compute. repeat split. Qed.

(** C3 (as amended).  [RouterBase::get_source] returns an acceptor for any
    key without raising and without touching the edge table; the key set
    grows when an edge is bound through the acceptor.
    [DynamicRouterComponent::get_source] returns the acceptor of a key that
    was among the route keys given to the constructor and raises
    [std::out_of_range] for every other key; and no operation of the
    component adds an acceptor. *)
Theorem get_source_by_router_kind
    {KeyT : Type} `{Countable KeyT} {InputT EdgeT : Type}
    (await_write : EdgeT → InputT → Status * EdgeT) (key_fn : InputT → outcome KeyT) :
  (∀ key : KeyT, RouterBase.get_source key = Return (RouterBase.mk_DownstreamEdge key)) ∧
  (∀ (key : KeyT) (edge : EdgeT) (m_edges : gmap KeyT EdgeT),
     let m_edges' :=
       RouterBase.set_writable_edge_handle (RouterBase.mk_DownstreamEdge key) edge m_edges in
     m_edges' !! key = Some edge ∧ dom m_edges' = {[key]} ∪ dom m_edges) ∧
  (∀ (route_keys : list KeyT) (key : KeyT),
     DynamicRouterComponent.get_source (EdgeT := EdgeT)
       (DynamicRouterComponent.make route_keys) key
     = if decide (key ∈ route_keys) then Return (DynamicRouterComponent.mk_Downstream key)
       else Raise (std_exception "std::out_of_range" "map::at")) ∧
  (∀ (r : DynamicRouterComponent.t KeyT EdgeT) (key : KeyT)
     (d : DynamicRouterComponent.Downstream KeyT) (edge : EdgeT) (data : InputT),
     dom (DynamicRouterComponent.m_downstreams (DynamicRouterComponent.drop_source key r))
       ⊆ dom (DynamicRouterComponent.m_downstreams r) ∧
     DynamicRouterComponent.m_downstreams
       (DynamicRouterComponent.set_writable_edge_handle d edge r)
       = DynamicRouterComponent.m_downstreams r ∧
     DynamicRouterComponent.m_downstreams
       (DynamicRouterComponent.on_next await_write key_fn r data).2
       = DynamicRouterComponent.m_downstreams r ∧
     DynamicRouterComponent.m_downstreams (DynamicRouterComponent.on_complete r)
       = DynamicRouterComponent.m_downstreams r).
Proof.
  split; [done|]. split.
  { intros key edge m_edges. simpl.
    unfold RouterBase.set_writable_edge_handle, MultiSourceProperties.make_edge_connection.
    simpl. split; [apply lookup_insert_eq|apply dom_insert_L]. }
  split; [apply dynamic_get_source_made|].
  intros r key d edge data. split; [|split; [done|split; [|done]]].
  - simpl. apply subseteq_dom, delete_subseteq.
  - apply dynamic_on_next_downstreams.
Qed.

(** C3, the claim as worded fails: on a dynamic router component built over
    the key "a", [get_source "b"] raises instead of returning an acceptor. *)
Lemma dynamic_get_source_new_key_raises :
  let r : DynamicRouterComponent.t string (BufferedChannel Z) :=
    DynamicRouterComponent.make ["a"] in
  DynamicRouterComponent.has_source r "b" = false ∧
  DynamicRouterComponent.get_source r "b"
    = Raise (std_exception "std::out_of_range" "map::at") ∧
  (∀ d, DynamicRouterComponent.get_source r "b" ≠ Return d).
Proof.
  vm_compute. repeat split. intros d. discriminate.
Qed.

(** ** Tagged router *)

Lemma push_all_cons {S InputT : Type} (handler : S → InputT → outcome Status * S)
    (s : S) (x : InputT) (rest : list InputT) :
  push_all handler s (x :: rest)
  = ((handler s x).1 :: (push_all handler (handler s x).2 rest).1,
     (push_all handler (handler s x).2 rest).2).
Proof.
  simpl. destruct (handler s x) as [o s']. simpl.
  by destruct (push_all handler s' rest).
Qed.

Section tagged_router.
Context {KeyT : Type} `{Countable KeyT} {T : Type}.

Lemma tagged_on_next_cases {EdgeT : Type} (await_write : EdgeT → T → Status * EdgeT)
    (m_edges : gmap KeyT EdgeT) (data : KeyT * T) :
  TaggedRouter.on_next await_write m_edges data
  = match m_edges !! data.1 with
    | Some edge =>
        (Return (await_write edge data.2).1, <[data.1 := (await_write edge data.2).2]> m_edges)
    | None => (Return error, m_edges)
    end.
Proof.
  unfold TaggedRouter.on_next.
  destruct (converting_router_handles await_write
              TaggedRouter.determine_key_for_value TaggedRouter.convert_value
              m_edges data) as (Hunbound & Hbound & _).
  destruct (m_edges !! data.1) as [edge|] eqn:Hk.
  - by apply Hbound.
  - by apply (Hunbound data.1 data.2).
Qed.

(** Over open buffered channels, the downstream of key [k] receives the
    values of the items tagged [k], in arrival order, and nothing else. *)
Lemma tagged_push_all_queue (items : list (KeyT * T))
    (m_edges : gmap KeyT (BufferedChannel T)) (k : KeyT) (c : BufferedChannel T) :
  m_edges !! k = Some c →
  is_closed c = false →
  (push_all (TaggedRouter.on_next channel.await_write) m_edges items).2 !! k
  = Some (mk_channel false (queue c ++ (snd <$> filter (fun item => item.1 = k) items))).
Proof.
  revert m_edges c. induction items as [|[k' v] rest IH]; intros m_edges c Hk Hopen.
  - simpl. rewrite app_nil_r, Hk. destruct c as [cl q]. simpl in Hopen. by subst.
  - rewrite push_all_cons. cbn [snd]. rewrite tagged_on_next_cases. cbn [fst snd].
    destruct (decide (k' = k)) as [->|Hne].
    + rewrite Hk. cbn [snd]. unfold channel.await_write at 2. rewrite Hopen. cbn [snd].
      rewrite (IH _ (mk_channel false (queue c ++ [v]))); [|apply lookup_insert_eq|done].
      rewrite filter_cons_True by done. cbn [queue fmap list_fmap snd].
      by rewrite <- app_assoc.
    + rewrite filter_cons_False by done.
      destruct (m_edges !! k') as [c'|] eqn:Hk'; cbn [snd].
      * apply IH; [|done]. by rewrite lookup_insert_ne.
      * by apply IH.
Qed.

End tagged_router.

(** C8.  For a [TaggedRouter] over pairs, the key of an item is its first
    component and the converted value is its second component; [on_next]
    writes that second component on the downstream bound to the first
    component and touches no other downstream; over open channels each
    downstream [k] therefore receives exactly the values tagged [k], in
    order.  With downstreams bound for "a" and "b", the input
    [("a",1); ("b",2); ("a",3)] leaves [1; 3] on "a" and [2] on "b". *)
Theorem tagged_router_dispatch :
  (∀ (KeyT T : Type) (data : KeyT * T),
     TaggedRouter.determine_key_for_value data = Return data.1 ∧
     TaggedRouter.convert_value data = Return data.2) ∧
  (∀ (KeyT : Type) `{Countable KeyT} (T EdgeT : Type)
     (await_write : EdgeT → T → Status * EdgeT)
     (m_edges : gmap KeyT EdgeT) (data : KeyT * T),
     TaggedRouter.on_next await_write m_edges data
     = match m_edges !! data.1 with
       | Some edge =>
           (Return (await_write edge data.2).1,
            <[data.1 := (await_write edge data.2).2]> m_edges)
       | None => (Return error, m_edges)
       end) ∧
  (∀ (KeyT : Type) `{Countable KeyT} (T : Type) (items : list (KeyT * T))
     (m_edges : gmap KeyT (BufferedChannel T)) (k : KeyT) (c : BufferedChannel T),
     m_edges !! k = Some c →
     is_closed c = false →
     (push_all (TaggedRouter.on_next channel.await_write) m_edges items).2 !! k
     = Some (mk_channel false
               (queue c ++ (snd <$> filter (fun item => item.1 = k) items)))) ∧
  (let bind (key : string) (m_edges : gmap string (BufferedChannel Z)) :=
     RouterBase.set_writable_edge_handle (RouterBase.mk_DownstreamEdge key)
       empty_channel m_edges in
   let result :=
     push_all (TaggedRouter.on_next channel.await_write) (bind "b" (bind "a" ∅))
       [("a", 1%Z); ("b", 2%Z); ("a", 3%Z)] in
   result.1 = [Return success; Return success; Return success] ∧
   queue <$> (result.2 !! "a") = Some [1%Z; 3%Z] ∧
   queue <$> (result.2 !! "b") = Some [2%Z] ∧
   dom result.2 = {["a"; "b"]}).
Proof.
  split; [done|].
  split; [intros; apply tagged_on_next_cases|].
  split; [intros; by apply tagged_push_all_queue|].
  vm_compute. repeat split.
Qed.

(** C8 at the scenario's input, through the general dispatch property: the
    channel of "a" ends with the values tagged "a", [1; 3]. *)
Lemma tagged_router_dispatch_witness :
  let edges : gmap string (BufferedChannel Z) :=
    {["a" := empty_channel; "b" := empty_channel]} in
  (push_all (TaggedRouter.on_next channel.await_write) edges
     [("a", 1%Z); ("b", 2%Z); ("a", 3%Z)]).2 !! "a"
  = Some (mk_channel false [1%Z; 3%Z]).
Proof.
  intros edges.
  destruct tagged_router_dispatch as (_ & _ & Hqueue & _).
  rewrite (Hqueue string _ _ Z [("a", 1%Z); ("b", 2%Z); ("a", 3%Z)] edges "a"
             empty_channel eq_refl eq_refl).
  vm_compute. reflexivity.
Defined.

(** ** The runnable router *)

Section runnable_router.
Context {KeyT : Type} `{Countable KeyT} {InputT EdgeT : Type}.
Variable await_write : EdgeT → InputT → Status * EdgeT.
Variable key_fn : InputT → outcome KeyT.

Import StaticRouterRunnableBase.

Abbreviation frame := (StaticRouterRunnableBase.frame KeyT InputT EdgeT).
Abbreviation run_loop := (StaticRouterRunnableBase.run_loop await_write key_fn).
Abbreviation spec_loop := (StaticRouterRunnableBase.spec_loop await_write key_fn).
Abbreviation run := (StaticRouterRunnableBase.run await_write key_fn).
Abbreviation process_one := (StaticRouterBase.process_one await_write key_fn).

Lemma on_state_update_cases (state : State) (stop_source : bool) :
  on_state_update state stop_source = stop_source || bool_decide (state = Kill).
Proof. destruct state, stop_source; reflexivity. Qed.

Lemma on_state_update_sticky (state : State) : on_state_update state true = true.
Proof. by destruct state. Qed.

(** [process_one] catches every [std::exception]; what can leave it is an
    object of another type. *)
Lemma process_one_raises_only_foreign (m_edges : gmap KeyT EdgeT) (data : InputT)
    (t : throwable) :
  (process_one m_edges data).1 = Raise t → ∃ descr, t = foreign_object descr.
Proof.
  unfold StaticRouterBase.process_one, MultiSourceProperties.get_writable_edge.
  destruct (key_fn data) as [key|[cls what|descr]|d]; simpl; try done.
  - destruct (m_edges !! key) as [edge|]; simpl; [|done].
    by destruct (await_write edge data).
  - intros [= <-]. eauto.
Qed.

Lemma run_loop_stopped (script : list (event InputT)) (f : frame) :
  m_stop_source f = true →
  ∃ f', run_loop script f = Exited f' ∧
        m_stop_source f' = true ∧
        read_status f' = read_status f ∧ write_status f' = write_status f ∧
        m_edges f' = m_edges f ∧ processed f' = processed f.
Proof.
  revert f. induction script as [|[state|status data] rest IH]; intros f Hstop.
  - exists f. simpl. unfold stop_requested. by rewrite Hstop.
  - simpl. destruct (IH (mk_frame (on_state_update state (m_stop_source f))
                           (read_status f) (write_status f) (m_edges f) (processed f)))
      as (f' & -> & ?); [simpl; rewrite Hstop; apply on_state_update_sticky|].
    by exists f'.
  - exists f. simpl. unfold stop_requested. by rewrite Hstop.
Qed.

Lemma run_loop_unwinds_only_foreign (script : list (event InputT)) (f : frame)
    (t : throwable) (f' : frame) :
  run_loop script f = Unwinding t f' → ∃ descr, t = foreign_object descr.
Proof.
  revert f. induction script as [|[state|status data] rest IH]; intros f; simpl.
  - by destruct (stop_requested _).
  - apply IH.
  - destruct (stop_requested _); [done|].
    destruct (_ && _); [|done].
    destruct (process_one (m_edges f) data) as [[status'|t'|d] m_edges'] eqn:Hp; [apply IH| |done].
    intros [= -> _]. apply (process_one_raises_only_foreign (m_edges f) data).
    by rewrite Hp.
Qed.

(** Once a write has failed the loop processes nothing more. *)
Lemma run_loop_after_failed_write (script : list (event InputT)) (f : frame) :
  write_status f ≠ success →
  effects (run_loop script f) = (processed f, m_edges f, write_status f).
Proof.
  revert f. induction script as [|[state|status data] rest IH]; intros f Hws; simpl.
  - by destruct (stop_requested _).
  - by rewrite IH.
  - destruct (stop_requested _); [done|].
    rewrite (bool_decide_eq_false_2 (write_status f = success)) by done.
    by rewrite andb_false_r.
Qed.

Lemma run_loop_refines_spec_loop (script : list (event InputT)) (f : frame) :
  write_status f = success →
  effects (run_loop script f) = effects (spec_loop script f).
Proof.
  revert f. induction script as [|[state|status data] rest IH]; intros f Hws; simpl.
  - done.
  - by apply IH.
  - destruct (stop_requested _); [done|].
    rewrite (bool_decide_eq_true_2 (write_status f = success)) by done.
    rewrite andb_true_r.
    destruct (bool_decide (status = success)); [|done].
    destruct (process_one (m_edges f) data) as [[status'|t|d] m_edges']; [|done..].
    destruct (decide (status' = success)) as [->|Hne].
    + rewrite bool_decide_eq_true_2 by done. by apply IH.
    + rewrite bool_decide_eq_false_2 by done.
      by rewrite run_loop_after_failed_write.
Qed.

End runnable_router.

Section draining.
Context {KeyT : Type} `{Countable KeyT} {InputT : Type}.
Variable key_fn : InputT → outcome KeyT.

Import StaticRouterRunnableBase.

Abbreviation chan_frame := (StaticRouterRunnableBase.frame KeyT InputT (BufferedChannel InputT)).
Abbreviation chan_loop := (StaticRouterRunnableBase.run_loop channel.await_write key_fn).

Lemma process_one_deliverable (m_edges : gmap KeyT (BufferedChannel InputT)) (x : InputT) :
  deliverable key_fn m_edges x →
  ∃ key c, m_edges !! key = Some c ∧ is_closed c = false ∧
    StaticRouterBase.process_one channel.await_write key_fn m_edges x
    = (Return success, <[key := mk_channel false (queue c ++ [x])]> m_edges).
Proof.
  intros (key & c & Hkey & Hc & Hopen). exists key, c. split; [done|]. split; [done|].
  destruct (forwarding_router_handles channel.await_write key_fn m_edges x)
    as (_ & Hbound & _).
  rewrite process_one_is_on_next, (Hbound key x c Hkey eq_refl Hc).
  unfold channel.await_write. by rewrite Hopen.
Qed.

Lemma deliverable_after_write (m_edges : gmap KeyT (BufferedChannel InputT))
    (key : KeyT) (c : BufferedChannel InputT) (q : list InputT) (y : InputT) :
  m_edges !! key = Some c →
  deliverable key_fn m_edges y →
  deliverable key_fn (<[key := mk_channel false q]> m_edges) y.
Proof.
  intros Hc (key' & c' & Hkey' & Hc' & Hopen').
  destruct (decide (key' = key)) as [->|Hne].
  - exists key, (mk_channel false q). by rewrite lookup_insert_eq.
  - exists key', c'. by rewrite lookup_insert_ne.
Qed.

(** With the stop token clear and every item deliverable, the loop hands
    every item to [process_one] and leaves when the upstream reports
    [closed]. *)
Lemma run_loop_drains (items : list InputT) (junk : InputT) (f : chan_frame) :
  m_stop_source f = false →
  write_status f = success →
  Forall (deliverable key_fn (m_edges f)) items →
  ∃ f', chan_loop ((Read success <$> items) ++ [Read closed junk]) f = Exited f' ∧
        processed f' = processed f ++ items ∧
        read_status f' = closed ∧ write_status f' = success.
Proof.
  revert f. induction items as [|x rest IH]; intros f Hstop Hws Hall.
  - simpl. unfold stop_requested. rewrite Hstop. simpl.
    eexists. split; [done|]. simpl. by rewrite app_nil_r.
  - apply Forall_cons in Hall as [Hx Hrest].
    destruct (process_one_deliverable _ _ Hx) as (key & c & Hc & Hopen & Hp).
    cbn [fmap list_fmap app StaticRouterRunnableBase.run_loop].
    unfold stop_requested. rewrite Hstop.
    rewrite !bool_decide_eq_true_2 by done. cbn [andb]. rewrite Hp.
    destruct (IH (mk_frame false success success
                    (<[key := mk_channel false (queue c ++ [x])]> (m_edges f))
                    (processed f ++ [x]))) as (f' & Hrun & Hproc & Hrs & Hws');
      [done|done| |].
    { simpl. eapply Forall_impl; [exact Hrest|].
      intros y Hy. by eapply deliverable_after_write. }
    exists f'. split; [exact Hrun|].
    split; [|done]. rewrite Hproc. simpl. by rewrite <- app_assoc.
Qed.

End draining.

Section runnable_theorems.
Context {KeyT : Type} `{Countable KeyT} {InputT EdgeT : Type}.

Import StaticRouterRunnableBase.

(** How [run] ends, by the way its loop ends.  When the loop exits, every
    downstream edge is released, and [run] raises "Failed to read from
    upstream" if the final read status is [error], otherwise "Failed to
    write to downstream" if the final write status is [error], and
    otherwise returns.  The other ways for the loop to end are a suspension
    in [await_read] and an object that is not a [std::exception] leaving
    the key function (or an abort in it).  The first part compares the
    loop with [spec_loop] on what reaches the downstreams only: the items
    processed, the edge table and the write status.  It says nothing on
    when the two loops exit or on their read status, where they differ. *)
Theorem run_releases_edges_and_reports_errors
    (await_write : EdgeT → InputT → Status * EdgeT) (key_fn : InputT → outcome KeyT)
    (script : list (event InputT)) (indeterminate : Status) (stop_source : bool)
    (edges : gmap KeyT EdgeT) :
  let f0 := mk_frame stop_source indeterminate success edges [] in
  effects (run_loop await_write key_fn script f0)
    = effects (spec_loop await_write key_fn script f0) ∧
  match run_loop await_write key_fn script f0 with
  | Exited f =>
      ∃ f', run await_write key_fn script indeterminate stop_source edges
            = Finished
                (if decide (read_status f = error) then
                   Raise (std_exception "MrcRuntimeError" "Failed to read from upstream")
                 else if decide (write_status f = error) then
                   Raise (std_exception "MrcRuntimeError" "Failed to write to downstream")
                 else Return ())
                f' ∧
            m_edges f' = ∅ ∧
            processed f' = processed f ∧
            read_status f' = read_status f ∧ write_status f' = write_status f
  | Suspended f =>
      run await_write key_fn script indeterminate stop_source edges = Blocked f
  | Unwinding t f =>
      run await_write key_fn script indeterminate stop_source edges = Finished (Raise t) f ∧
      ∃ descr, t = foreign_object descr
  | Aborted d f =>
      run await_write key_fn script indeterminate stop_source edges = Finished (Abort d) f
  end.
Proof.
  intros f0. split; [by apply run_loop_refines_spec_loop|].
  unfold run. fold f0.
  destruct (run_loop await_write key_fn script f0) as [f|f|t f|d f] eqn:Hloop; try done.
  - eexists. split; [reflexivity|]. done.
  - split; [done|]. by eapply run_loop_unwinds_only_foreign.
Qed.

End runnable_theorems.

(** At a concrete run: the first item has an unbound key, so its write
    fails with [error]; the next read fails too.  The loop exits, the edges
    are released and the error raised names the read side. *)
Lemma run_releases_edges_and_reports_errors_witness :
  let key_fn : string * Z → outcome string := fun data => Return data.1 in
  let edges : gmap string (BufferedChannel (string * Z)) := {["a" := empty_channel]} in
  ∃ f', StaticRouterRunnableBase.run channel.await_write key_fn
          [StaticRouterRunnableBase.Read success ("z", 1%Z);
           StaticRouterRunnableBase.Read error ("z", 1%Z)] timeout false edges
        = StaticRouterRunnableBase.Finished
            (Raise (std_exception "MrcRuntimeError" "Failed to read from upstream")) f' ∧
        StaticRouterRunnableBase.m_edges f' = ∅ ∧
        StaticRouterRunnableBase.processed f' = [("z", 1%Z)] ∧
        StaticRouterRunnableBase.write_status f' = error.
Proof.
  intros key_fn edges.
  pose proof (proj2 (run_releases_edges_and_reports_errors channel.await_write key_fn
                       [StaticRouterRunnableBase.Read success ("z", 1%Z);
                        StaticRouterRunnableBase.Read error ("z", 1%Z)]
                       timeout false edges)) as Hexit.
  cbn in Hexit.
  destruct Hexit as (f' & Hrun & Hedges & Hproc & Hrs & Hws).
  exists f'. split; [exact Hrun|]. split; [exact Hedges|]. split; [exact Hproc|exact Hws].
Defined.

(** [run] on concrete scripts, with downstream "a" bound to an open channel
    and the key taken from the first component of the item. *)
Example run_on_scripts :
  let key_fn : string * Z → outcome string := fun data => Return data.1 in
  let edges : gmap string (BufferedChannel (string * Z)) := {["a" := empty_channel]} in
  let run := StaticRouterRunnableBase.run channel.await_write key_fn in
  let outcome_of r :=
    match r with
    | StaticRouterRunnableBase.Finished o f =>
        Some (o, StaticRouterRunnableBase.processed f,
              dom (StaticRouterRunnableBase.m_edges f))
    | StaticRouterRunnableBase.Blocked _ => None
    end in
  let Read := StaticRouterRunnableBase.Read in
  (* upstream closes after one item *)
  outcome_of (run [Read success ("a", 1%Z); Read closed ("a", 1%Z)] timeout false edges)
    = Some (Return (), [("a", 1%Z)], ∅) ∧
  (* upstream fails *)
  outcome_of (run [Read success ("a", 1%Z); Read error ("a", 1%Z)] timeout false edges)
    = Some (Raise StaticRouterRunnableBase.read_failure, [("a", 1%Z)], ∅) ∧
  (* an item for an unbound key: the write fails, the next read is still
     made and its item is not processed *)
  outcome_of (run [Read success ("z", 1%Z); Read success ("a", 2%Z); Read closed ("a", 2%Z)]
                timeout false edges)
    = Some (Raise StaticRouterRunnableBase.write_failure, [("z", 1%Z)], ∅) ∧
  (* a failed write followed by a failed read is reported as a read failure *)
  outcome_of (run [Read success ("z", 1%Z); Read error ("z", 1%Z)] timeout false edges)
    = Some (Raise StaticRouterRunnableBase.read_failure, [("z", 1%Z)], ∅) ∧
  (* nothing to read yet: suspended *)
  outcome_of (run [Read success ("a", 1%Z)] timeout false edges) = None.
Proof. vm_compute. repeat split. Qed.

(** C6, evaluated on the code.  The [while] of [run] tests [write_status]
    as its last conjunct, after the next [await_read] has returned, whereas
    the loop of the claim stops as soon as the processing of an item does
    not return [success].  Downstream "a" is bound, the key is the first
    component, and the upstream first delivers an item for the unbound key
    "z", whose processing returns [error].
    - If the upstream then has nothing more, the code is suspended in
      [await_read]; the loop of the claim has exited, and its exit tests
      raise the write failure.
    - If the next read returns [error], the code raises "Failed to read from
      upstream"; the loop of the claim never makes that read and raises
      "Failed to write to downstream".
    - If the next read delivers an item for "a", the code takes it from the
      upstream and exits without processing it: channel "a" stays empty. *)
Theorem run_tests_write_status_after_the_next_read :
  let key_fn : string * Z → outcome string := fun data => Return data.1 in
  let edges : gmap string (BufferedChannel (string * Z)) := {["a" := empty_channel]} in
  let f0 := StaticRouterRunnableBase.mk_frame false timeout success edges [] in
  let Read := StaticRouterRunnableBase.Read in
  let run := StaticRouterRunnableBase.run channel.await_write key_fn in
  let run_loop := StaticRouterRunnableBase.run_loop channel.await_write key_fn in
  let spec_loop := StaticRouterRunnableBase.spec_loop channel.await_write key_fn in
  let spec_exit script :=
    StaticRouterRunnableBase.exit_checks
      (StaticRouterRunnableBase.read_status
         (StaticRouterRunnableBase.frame_of (spec_loop script f0)))
      (StaticRouterRunnableBase.write_status
         (StaticRouterRunnableBase.frame_of (spec_loop script f0))) in
  let failed := StaticRouterRunnableBase.mk_frame false success error edges [("z", 1%Z)] in
  (StaticRouterBase.process_one channel.await_write key_fn edges ("z", 1%Z)).1
    = Return error ∧
  (* nothing more upstream *)
  run [Read success ("z", 1%Z)] timeout false edges
    = StaticRouterRunnableBase.Blocked failed ∧
  spec_loop [Read success ("z", 1%Z)] f0 = StaticRouterRunnableBase.Exited failed ∧
  spec_exit [Read success ("z", 1%Z)] = Raise StaticRouterRunnableBase.write_failure ∧
  (* the next read fails *)
  run [Read success ("z", 1%Z); Read error ("z", 1%Z)] timeout false edges
    = StaticRouterRunnableBase.Finished (Raise StaticRouterRunnableBase.read_failure)
        (StaticRouterRunnableBase.mk_frame false error error ∅ [("z", 1%Z)]) ∧
  spec_exit [Read success ("z", 1%Z); Read error ("z", 1%Z)]
    = Raise StaticRouterRunnableBase.write_failure ∧
  (* the next read delivers an item for the bound key *)
  run_loop [Read success ("z", 1%Z); Read success ("a", 2%Z); Read closed ("a", 2%Z)] f0
    = StaticRouterRunnableBase.Exited failed ∧
  successful_reads [Read success ("z", 1%Z); Read success ("a", 2%Z); Read closed ("a", 2%Z)]
    = [("z", 1%Z); ("a", 2%Z)] ∧
  deliverable key_fn edges ("a", 2%Z).
Proof.
  cbv zeta. repeat split; try (vm_compute; reflexivity).
  exists "a", empty_channel. repeat split.
Qed.

(** C7.  [on_state_update] leaves the stop token as it is on [Stop], sets
    it on [Kill], and changes it on no other state.  For the loop: an
    update other than [Kill] makes no difference to what follows; after a
    [Kill] the loop exits at its next test, without another read or another
    item processed; and after a [Stop], items that are all deliverable are
    all processed and [run] returns when the upstream reports [closed]. *)
Theorem stop_waits_and_kill_requests_stop :
  (∀ stop_source, StaticRouterRunnableBase.on_state_update Stop stop_source = stop_source) ∧
  (∀ stop_source, StaticRouterRunnableBase.on_state_update Kill stop_source = true) ∧
  (∀ state stop_source,
     StaticRouterRunnableBase.on_state_update state stop_source
     = stop_source || bool_decide (state = Kill)) ∧
  (∀ (KeyT : Type) `{Countable KeyT} (InputT EdgeT : Type)
     (await_write : EdgeT → InputT → Status * EdgeT) (key_fn : InputT → outcome KeyT)
     (state : State) (script : list (StaticRouterRunnableBase.event InputT))
     (f : StaticRouterRunnableBase.frame KeyT InputT EdgeT),
     state ≠ Kill →
     StaticRouterRunnableBase.run_loop await_write key_fn
       (StaticRouterRunnableBase.StateUpdate state :: script) f
     = StaticRouterRunnableBase.run_loop await_write key_fn script f) ∧
  (∀ (KeyT : Type) `{Countable KeyT} (InputT EdgeT : Type)
     (await_write : EdgeT → InputT → Status * EdgeT) (key_fn : InputT → outcome KeyT)
     (script : list (StaticRouterRunnableBase.event InputT))
     (f : StaticRouterRunnableBase.frame KeyT InputT EdgeT),
     ∃ f', StaticRouterRunnableBase.run_loop await_write key_fn
             (StaticRouterRunnableBase.StateUpdate Kill :: script) f
           = StaticRouterRunnableBase.Exited f' ∧
           StaticRouterRunnableBase.m_stop_source f' = true ∧
           StaticRouterRunnableBase.processed f' = StaticRouterRunnableBase.processed f ∧
           StaticRouterRunnableBase.m_edges f' = StaticRouterRunnableBase.m_edges f ∧
           StaticRouterRunnableBase.read_status f' = StaticRouterRunnableBase.read_status f ∧
           StaticRouterRunnableBase.write_status f'
             = StaticRouterRunnableBase.write_status f) ∧
  (∀ (KeyT : Type) `{Countable KeyT} (InputT : Type) (key_fn : InputT → outcome KeyT)
     (items : list InputT) (junk : InputT) (indeterminate : Status)
     (edges : gmap KeyT (BufferedChannel InputT)),
     Forall (deliverable key_fn edges) items →
     ∃ f', StaticRouterRunnableBase.run channel.await_write key_fn
             (StaticRouterRunnableBase.StateUpdate Stop
                :: (StaticRouterRunnableBase.Read success <$> items)
                ++ [StaticRouterRunnableBase.Read closed junk])
             indeterminate false edges
           = StaticRouterRunnableBase.Finished (Return ()) f' ∧
           StaticRouterRunnableBase.processed f' = items).
Proof.
  split; [done|]. split; [done|].
  split; [apply on_state_update_cases|].
  split.
  { intros KeyT ? ? InputT EdgeT await_write key_fn state script f Hne.
    cbn [StaticRouterRunnableBase.run_loop].
    rewrite on_state_update_cases, bool_decide_eq_false_2, orb_false_r by done.
    by destruct f. }
  split.
  { intros KeyT ? ? InputT EdgeT await_write key_fn script f.
    cbn [StaticRouterRunnableBase.run_loop].
    destruct (run_loop_stopped await_write key_fn script
                (StaticRouterRunnableBase.mk_frame
                   (StaticRouterRunnableBase.on_state_update Kill
                      (StaticRouterRunnableBase.m_stop_source f))
                   (StaticRouterRunnableBase.read_status f)
                   (StaticRouterRunnableBase.write_status f)
                   (StaticRouterRunnableBase.m_edges f)
                   (StaticRouterRunnableBase.processed f)))
      as (f' & Hrun & Hstop & Hrs & Hws & Hedges & Hproc); [done|].
    exists f'. by rewrite Hrun. }
  intros KeyT ? ? InputT key_fn items junk indeterminate edges Hall.
  unfold StaticRouterRunnableBase.run. cbn [StaticRouterRunnableBase.run_loop].
  destruct (run_loop_drains key_fn items junk
              (StaticRouterRunnableBase.mk_frame false indeterminate success edges []))
    as (f' & Hrun & Hproc & Hrs & Hws); [done|done|done|].
  cbn [StaticRouterRunnableBase.on_state_update StaticRouterRunnableBase.m_stop_source
       StaticRouterRunnableBase.read_status StaticRouterRunnableBase.write_status
       StaticRouterRunnableBase.m_edges StaticRouterRunnableBase.processed].
  rewrite Hrun. eexists. split.
  - unfold StaticRouterRunnableBase.exit_checks. rewrite Hrs, Hws. reflexivity.
  - done.
Qed.

(** C7 at a concrete run: a [Stop] arrives first, two items for the bound
    key "a" follow and then the upstream closes; both items are processed
    and [run] returns. *)
Lemma stop_waits_and_kill_requests_stop_witness :
  let key_fn : string * Z → outcome string := fun data => Return data.1 in
  let edges : gmap string (BufferedChannel (string * Z)) := {["a" := empty_channel]} in
  let items := [("a", 1%Z); ("a", 2%Z)] in
  ∃ f', StaticRouterRunnableBase.run channel.await_write key_fn
          (StaticRouterRunnableBase.StateUpdate Stop
             :: (StaticRouterRunnableBase.Read success <$> items)
             ++ [StaticRouterRunnableBase.Read closed ("a", 0%Z)])
          timeout false edges
        = StaticRouterRunnableBase.Finished (Return ()) f' ∧
        StaticRouterRunnableBase.processed f' = items.
Proof.
  intros key_fn edges items.
  destruct stop_waits_and_kill_requests_stop as (_ & _ & _ & _ & _ & Hdrain).
  apply (Hdrain string _ _ (string * Z)%type key_fn items).
  repeat constructor; exists "a", empty_channel; repeat split; reflexivity.
Defined.

(** ** Thread engines *)

Section thread_engines.
Context {CpuSet SystemResources : Type}.
Variable next_binding : CpuSet → CpuSet * CpuSet.

Lemma for_each_pe_launchers (remaining : nat)
    (self : ThreadEngines.t CpuSet SystemResources) :
  length (ThreadEngines.launchers (ThreadEngines.for_each_pe next_binding remaining self))
  = length (ThreadEngines.launchers self) + remaining.
Proof.
  revert self. induction remaining as [|n IH]; intros self; simpl.
  - lia.
  - destruct (next_binding (ThreadEngines.m_cpu_set self)) as [binding cpu_set'].
    rewrite IH. simpl. rewrite length_app. simpl. lia.
Qed.

(** C5, evaluated on the code.  [initialize_launchers] adds one launcher per
    PE whatever [engines_per_pe] is: the constructor leaves [pe_count]
    launchers, and with [pe_count = 2] and [engines_per_pe = 2] it leaves 2
    of them, not 4. *)
Theorem thread_engines_one_launcher_per_pe
    (options : ThreadEngines.LaunchOptions) (name : string)
    (cpu_set : CpuSet) (system : SystemResources) :
  length (ThreadEngines.launchers (ThreadEngines.make next_binding options cpu_set system))
    = ThreadEngines.pe_count options ∧
  length (ThreadEngines.launchers
            (ThreadEngines.make next_binding (ThreadEngines.mk_LaunchOptions name 2 2)
               cpu_set system)) = 2 ∧
  (∀ pe e1 e2,
     length (ThreadEngines.launchers
               (ThreadEngines.make next_binding (ThreadEngines.mk_LaunchOptions name pe e1)
                  cpu_set system))
     = length (ThreadEngines.launchers
                 (ThreadEngines.make next_binding (ThreadEngines.mk_LaunchOptions name pe e2)
                    cpu_set system))).
Proof.
  unfold ThreadEngines.make, ThreadEngines.initialize_launchers.
  rewrite !for_each_pe_launchers. simpl. split; [done|]. split; [done|].
  intros pe e1 e2. by rewrite !for_each_pe_launchers.
Qed.

End thread_engines.

(** ** ResourceState *)

Section resource_state.
Context {ResourceDefinition : Type}.

Lemma foldl_push_back (v items : list ResourceDefinition) :
  foldl ResourceState.push_back v items = v ++ items.
Proof.
  revert v. induction items as [|x rest IH]; intros v; simpl.
  - by rewrite app_nil_r.
  - rewrite IH. unfold ResourceState.push_back. by rewrite <- app_assoc.
Qed.

Lemma dependees_fills (m : ResourceState.message ResourceDefinition)
    (s : ResourceState.statics ResourceDefinition) :
  ResourceState.dependees m s
  = (ResourceState.ref_dependees_vector,
     ResourceState.mk_statics (ResourceState.msg_dependees m)
       (ResourceState.dependers_vector s)).
Proof. unfold ResourceState.dependees. by rewrite foldl_push_back. Qed.

Lemma dependers_fills (m : ResourceState.message ResourceDefinition)
    (s : ResourceState.statics ResourceDefinition) :
  ResourceState.dependers m s
  = (ResourceState.ref_dependers_vector,
     ResourceState.mk_statics (ResourceState.dependees_vector s)
       (ResourceState.msg_dependers m)).
Proof. unfold ResourceState.dependers. by rewrite foldl_push_back. Qed.

(** C10.  Whatever the two [ResourceState] objects and whatever the statics
    held before, a call of [dependees] on the first and then on the second
    returns the same reference both times; read through it, the vector holds
    the first object's dependees after the first call and the second
    object's dependees after the second call, so what the first caller saw
    is overwritten.  The same holds for [dependers], and neither accessor
    touches the other's vector. *)
Theorem static_vector_is_shared_and_overwritten
    (a b : ResourceState.message ResourceDefinition)
    (s : ResourceState.statics ResourceDefinition) :
  (let first := ResourceState.dependees a s in
   let second := ResourceState.dependees b first.2 in
   first.1 = second.1 ∧
   ResourceState.deref first.1 first.2 = ResourceState.msg_dependees a ∧
   ResourceState.deref first.1 second.2 = ResourceState.msg_dependees b ∧
   ResourceState.dependers_vector second.2 = ResourceState.dependers_vector s) ∧
  (let first := ResourceState.dependers a s in
   let second := ResourceState.dependers b first.2 in
   first.1 = second.1 ∧
   ResourceState.deref first.1 first.2 = ResourceState.msg_dependers a ∧
   ResourceState.deref first.1 second.2 = ResourceState.msg_dependers b ∧
   ResourceState.dependees_vector second.2 = ResourceState.dependees_vector s).
Proof.
  cbv zeta. rewrite ?dependees_fills, ?dependers_fills. simpl.
  rewrite ?dependees_fills, ?dependers_fills. done.
Qed.

End resource_state.

(** C10 on concrete messages: the list read through the reference returned
    for the first object changes under the second call. *)
Example static_vector_overwritten_example :
  let a := ResourceState.mk_message 0 0 ["x"; "y"] [] in
  let b := ResourceState.mk_message 0 0 ["z"] [] in
  let first := ResourceState.dependees a (ResourceState.mk_statics [] []) in
  let second := ResourceState.dependees b first.2 in
  ResourceState.deref first.1 first.2 = ["x"; "y"] ∧
  ResourceState.deref first.1 second.2 = ["z"].
Proof. by vm_compute. Qed.

(** ** Equality of state wrappers *)

Section wrapper_equality.
Import ControlPlaneStateBase.

Lemma Field_equals_Nested (i j : N) (xs ys : list Field) :
  Field_equals (Nested i xs) (Nested j ys) = bool_decide (i = j) && fields_equal xs ys.
Proof. reflexivity. Qed.

Lemma fields_equal_correct (xs : list Field) :
  Forall (fun x => ∀ y, Field_equals x y = true ↔ x = y) xs →
  ∀ ys, fields_equal xs ys = true ↔ xs = ys.
Proof.
  induction 1 as [|x xs Hx _ IH]; intros [|y ys]; simpl; try done.
  rewrite andb_true_iff, Hx, IH. split; [by intros [-> ->]|by intros [= -> ->]].
Qed.

Lemma Field_equals_correct (a b : Field) : Field_equals a b = true ↔ a = b.
Proof.
  revert b. induction a as [i x|i x|i xs IH] using Field_ind; intros [j y|j y|j ys];
    try done.
  - simpl. rewrite andb_true_iff, !bool_decide_eq_true.
    split; [by intros [-> ->]|by intros [= -> ->]].
  - simpl. rewrite andb_true_iff, !bool_decide_eq_true.
    split; [by intros [-> ->]|by intros [= -> ->]].
  - rewrite Field_equals_Nested, andb_true_iff, bool_decide_eq_true,
      (fields_equal_correct xs IH).
    split; [by intros [-> ->]|by intros [= -> ->]].
Qed.

Lemma Equals_correct (a b : Message) : Equals a b = true ↔ a = b.
Proof.
  unfold Equals. rewrite andb_true_iff, bool_decide_eq_true.
  rewrite fields_equal_correct; [|apply Forall_forall; intros; apply Field_equals_correct].
  destruct a, b; simpl. split; [by intros [-> ->]|by intros [= -> ->]].
Qed.

(** C9.  [operator==] on two wrappers whose references are live is true
    exactly when the two referenced messages are equal as values, field by
    field; it reads neither the addresses nor the JSON renderings.  Two
    wrappers that refer to different message objects with identical
    contents compare equal, and two with different contents do not. *)
Theorem wrapper_equality_is_structural
    (MessageToJsonString : Message → string) (heap : gmap N Message) (self other : t) :
  (∀ this_message other_message,
     heap !! m_internal_message self = Some this_message →
     heap !! m_internal_message other = Some other_message →
     (operator_eq MessageToJsonString heap self other = Some true
      ↔ this_message = other_message)) ∧
  (∀ message,
     heap !! m_internal_message self = Some message →
     heap !! m_internal_message other = Some message →
     operator_eq MessageToJsonString heap self other = Some true) ∧
  (let worker := mk_Message "Worker" [Varint 1 7; LengthDelimited 2 "ucx";
                                       Nested 3 [Varint 1 0; Varint 2 1]] in
   let other_worker := mk_Message "Worker" [Varint 1 8; LengthDelimited 2 "ucx";
                                             Nested 3 [Varint 1 0; Varint 2 1]] in
   let objects : gmap N Message := {[ 1%N := worker; 2%N := worker; 3%N := other_worker ]} in
   mk 1 ≠ mk 2 ∧
   operator_eq MessageToJsonString objects (mk 1) (mk 2) = Some true ∧
   operator_eq MessageToJsonString objects (mk 1) (mk 3) = Some false).
Proof.
  split; [|split].
  - intros m1 m2 H1 H2. unfold operator_eq. rewrite H1, H2. simpl.
    rewrite <- Equals_correct. split; [by intros [= ->]|by intros ->].
  - intros m H1 H2. unfold operator_eq. rewrite H1, H2. simpl.
    f_equal. by apply Equals_correct.
  - split; [done|]. split; reflexivity.
Qed.

(** C9 at two wrappers over distinct objects with the same contents. *)
Lemma wrapper_equality_is_structural_witness :
  let worker := mk_Message "Worker" [Varint 1 7; LengthDelimited 2 "ucx"] in
  let objects : gmap N Message := {[ 1%N := worker; 2%N := worker ]} in
  operator_eq descriptor objects (mk 1) (mk 2) = Some true.
Proof.
  intros worker objects.
  destruct (wrapper_equality_is_structural descriptor objects (mk 1) (mk 2)) as (Hiff & _).
  apply (Hiff worker worker eq_refl eq_refl). reflexivity.
Defined.

End wrapper_equality.

(** ** Cross-references of the normalized control-plane state *)

Section collect.
Context {V : Type}.
Implicit Types (map_obj child_objs : gmap N V) (ids : list N).

Lemma MAP_AT_WITH_CHECK_cases map_obj (id : N) :
  state.MAP_AT_WITH_CHECK map_obj id
  = match map_obj !! id with
    | Some entity => Return entity
    | None => Raise out_of_range
    end.
Proof. reflexivity. Qed.

Lemma emplace_lookup (key id : N) (v : V) child_objs :
  state.emplace key v child_objs !! id
  = match child_objs !! id with
    | Some old => Some old
    | None => if decide (id = key) then Some v else None
    end.
Proof.
  unfold state.emplace. destruct (child_objs !! key) as [old|] eqn:Hkey.
  - destruct (child_objs !! id) eqn:Hid; [done|].
    case_decide; [congruence|done].
  - destruct (decide (id = key)) as [->|Hne].
    + by rewrite lookup_insert_eq, Hkey.
    + rewrite lookup_insert_ne by done. by destruct (child_objs !! id).
Qed.

Lemma collect_all_present map_obj ids child_objs :
  Forall (fun id => is_Some (map_obj !! id)) ids →
  ∃ result, state.collect map_obj ids child_objs = Return result ∧
    ∀ id, result !! id
          = match child_objs !! id with
            | Some old => Some old
            | None => if decide (id ∈ ids) then map_obj !! id else None
            end.
Proof.
  intros Hall. revert child_objs.
  induction Hall as [|key ids [v Hv] _ IH]; intros child_objs.
  - exists child_objs. split; [done|]. intros id.
    destruct (child_objs !! id); [done|]. by rewrite decide_False by apply not_elem_of_nil.
  - cbn [state.collect]. rewrite MAP_AT_WITH_CHECK_cases, Hv. simpl.
    destruct (IH (state.emplace key v child_objs)) as (result & -> & Hres).
    exists result. split; [done|]. intros id. rewrite Hres, emplace_lookup.
    destruct (child_objs !! id) as [old|]; [done|].
    destruct (decide (id = key)) as [->|Hne].
    + rewrite decide_True by left. done.
    + destruct (decide (id ∈ ids)) as [Hin|Hin].
      * rewrite decide_True by (by right). done.
      * rewrite decide_False; [done|].
        intros Hc. apply elem_of_cons in Hc. by destruct Hc.
Qed.

Lemma collect_some_missing map_obj ids child_objs :
  ¬ Forall (fun id => is_Some (map_obj !! id)) ids →
  state.collect map_obj ids child_objs = Raise out_of_range.
Proof.
  revert child_objs. induction ids as [|key ids IH]; intros child_objs Hnot.
  - destruct Hnot. constructor.
  - cbn [state.collect]. rewrite MAP_AT_WITH_CHECK_cases.
    destruct (map_obj !! key) as [v|] eqn:Hv; [|done]. simpl.
    apply IH. intros Hall. apply Hnot. constructor; [by rewrite Hv|done].
Qed.

End collect.

Lemma collect_resolves_each {M V : Type}
    (map_of : state.ControlPlaneNormalizedState → gmap N V) (ids_of : M → list N) :
  resolves_each (fun m_root_state m_message =>
                   state.collect (map_of m_root_state) (ids_of m_message) ∅)
                map_of ids_of.
Proof.
  intros m_root_state m_message. split.
  - intros Hall. destruct (collect_all_present _ _ ∅ Hall) as (result & Hres & Hlook).
    exists result. split; [done|]. intros id. by rewrite Hlook, lookup_empty.
  - apply collect_some_missing.
Qed.

(** C4 (as amended).  Every cross-reference accessor of the six top-level
    entities looks its ids up with the bounds-checked [std::map::at]: a
    single-reference accessor returns the entity stored under the id, and
    throws [std::out_of_range] when the id is missing; a list-valued
    accessor returns, for ids that are all present, the map from each listed
    id to the entity stored under it, and throws [std::out_of_range] as soon
    as one id is missing.  No accessor aborts and none produces a
    diagnostic of its own. *)
Theorem cross_references_are_bounds_checked :
  resolves_each state.Executor.workers state.workers protos.Executor.worker_ids ∧
  resolves_each state.Executor.assigned_pipelines state.pipeline_instances
    protos.Executor.assigned_pipeline_ids ∧
  resolves_each state.Executor.mapped_pipeline_definitions state.pipeline_definitions
    protos.Executor.mapped_pipeline_definitions ∧
  resolves_one state.Worker.executor state.executors protos.Worker.executor_id ∧
  resolves_each state.Worker.assigned_segments state.segment_instances
    protos.Worker.assigned_segment_ids ∧
  resolves_each state.PipelineDefinition.instances state.pipeline_instances
    protos.PipelineDefinition.instance_ids ∧
  resolves_one state.PipelineInstance.definition state.pipeline_definitions
    protos.PipelineInstance.definition_id ∧
  resolves_each state.PipelineInstance.manifolds state.manifold_instances
    protos.PipelineInstance.manifold_ids ∧
  resolves_each state.PipelineInstance.segments state.segment_instances
    protos.PipelineInstance.segment_ids ∧
  resolves_one state.ManifoldInstance.pipeline_definition state.pipeline_definitions
    protos.ManifoldInstance.pipeline_definition_id ∧
  resolves_one state.ManifoldInstance.pipeline_instance state.pipeline_instances
    protos.ManifoldInstance.pipeline_instance_id ∧
  resolves_one state.SegmentInstance.pipeline_definition state.pipeline_definitions
    protos.SegmentInstance.pipeline_definition_id ∧
  resolves_one state.SegmentInstance.worker state.workers protos.SegmentInstance.worker_id ∧
  resolves_one state.SegmentInstance.pipeline_instance state.pipeline_instances
    protos.SegmentInstance.pipeline_instance_id.
Proof.
  repeat split;
    first [ intros m_root_state m_message; apply MAP_AT_WITH_CHECK_cases
          | apply (collect_resolves_each _ _ _ _) ].
Qed.

(** C4 on a consistent snapshot: worker 1 belongs to executor 7, which lists
    it; both accessors return the entities stored under the ids. *)
Lemma cross_references_are_bounds_checked_witness :
  let executor := protos.Executor.mk 7 "peer" [1%N] [] [] in
  let worker := protos.Worker.mk 1 "ucx://w1" 7 [] in
  let snapshot := state.mk_state 0 {[ 7%N := executor ]} {[ 1%N := worker ]} ∅ ∅ ∅ ∅ in
  state.Worker.executor snapshot worker = Return executor ∧
  ∃ child_objs, state.Executor.workers snapshot executor = Return child_objs ∧
                child_objs !! 1%N = Some worker.
Proof.
  intros executor worker snapshot.
  destruct cross_references_are_bounds_checked as (Hworkers & _ & _ & Hexecutor & _).
  split.
  - rewrite (Hexecutor snapshot worker). reflexivity.
  - destruct (Hworkers snapshot executor) as (Hpresent & _).
    destruct Hpresent as (child_objs & Hret & Hlookup).
    + repeat constructor. exists worker. reflexivity.
    + exists child_objs. split; [exact Hret|]. rewrite Hlookup. reflexivity.
Defined.

(** C4, the claim as worded fails.  A root message with one worker whose
    [executor_id] names no executor initializes without complaint; on the
    resulting snapshot [Worker::executor] throws [std::out_of_range], it does
    not abort, and a caller's handler recovers from it: used inside a
    router's key function, the item merely fails with [error]. *)
Lemma missing_executor_is_thrown_and_caught :
  let worker := protos.Worker.mk 1 "ucx://w1" 7 [] in
  let root_message :=
    protos.mk_ControlPlaneState 0
      (protos.mk_table [] ∅) (protos.mk_table [1%N] {[ 1%N := worker ]})
      (protos.mk_table [] ∅) (protos.mk_table [] ∅)
      (protos.mk_table [] ∅) (protos.mk_table [] ∅) in
  let key_fn (snapshot : state.ControlPlaneNormalizedState) (w : protos.Worker.t)
      : outcome N :=
    executor ← state.Worker.executor snapshot w; mret (protos.Executor.id executor) in
  ∃ snapshot,
    state.create root_message = Return snapshot ∧
    state.workers snapshot !! 1%N = Some worker ∧
    state.executors snapshot !! state.Worker.executor_id worker = None ∧
    state.Worker.executor snapshot worker
      = Raise (std_exception "std::out_of_range" "map::at") ∧
    (∀ diagnostic, state.Worker.executor snapshot worker ≠ Abort diagnostic) ∧
    (Router.on_next (EdgeT := BufferedChannel protos.Worker.t) channel.await_write
       (key_fn snapshot) ∅ worker).1 = Return error.
Proof.
  eexists. split; [vm_compute; reflexivity|].
  vm_compute. repeat split. intros diagnostic. discriminate.
Qed.

(* ===================================================================== *)
(** * Part III: further properties of the code                            *)
(* ===================================================================== *)

(** ** Routers: what an item can and cannot change *)

Section router_frame.
Context {KeyT : Type} `{Countable KeyT} {InputT OutputT EdgeT : Type}.
Implicit Types m_edges : gmap KeyT EdgeT.

Lemma insert_bound_dom m_edges (key : KeyT) (edge edge' : EdgeT) :
  m_edges !! key = Some edge → dom (<[key := edge']> m_edges) = dom m_edges.
Proof.
  intros Hb. rewrite dom_insert_L.
  apply subseteq_union_1_L, singleton_subseteq_l, elem_of_dom. eauto.
Qed.

Lemma converting_on_next_frame
    (await_write : EdgeT → OutputT → Status * EdgeT)
    (key_fn : InputT → outcome KeyT) (convert : InputT → outcome OutputT)
    m_edges (data : InputT) :
  dom (RouterConvert.on_next await_write key_fn convert m_edges data).2 = dom m_edges ∧
  ∀ k, key_fn data ≠ Return k →
       (RouterConvert.on_next await_write key_fn convert m_edges data).2 !! k = m_edges !! k.
Proof.
  unfold RouterConvert.on_next, MultiSourceProperties.get_writable_edge.
  destruct (key_fn data) as [key|t|d]; simpl; [|done..].
  destruct (convert data) as [output|t|d]; simpl; [|done..].
  destruct (m_edges !! key) as [edge|] eqn:Hb; simpl; [|done].
  destruct (await_write edge output) as [status edge']. simpl. split.
  - by eapply insert_bound_dom.
  - intros k Hk. apply lookup_insert_ne. congruence.
Qed.

Lemma forwarding_on_next_frame
    (await_write : EdgeT → InputT → Status * EdgeT) (key_fn : InputT → outcome KeyT)
    m_edges (data : InputT) :
  dom (Router.on_next await_write key_fn m_edges data).2 = dom m_edges ∧
  ∀ k, key_fn data ≠ Return k →
       (Router.on_next await_write key_fn m_edges data).2 !! k = m_edges !! k.
Proof.
  unfold Router.on_next, MultiSourceProperties.get_writable_edge.
  destruct (key_fn data) as [key|t|d]; simpl; [|done..].
  destruct (m_edges !! key) as [edge|] eqn:Hb; simpl; [|done].
  destruct (await_write edge data) as [status edge']. simpl. split.
  - by eapply insert_bound_dom.
  - intros k Hk. apply lookup_insert_ne. congruence.
Qed.

(** X1.  Handling an item never binds or unbinds a downstream and never
    touches a downstream other than the one the item's key selects: after
    [on_next] (with or without conversion) or [process_one] the set of bound
    keys is unchanged and every edge under another key is the edge that was
    there before. *)
Theorem on_next_touches_only_its_key
    (write_out : EdgeT → OutputT → Status * EdgeT)
    (write_in : EdgeT → InputT → Status * EdgeT)
    (key_fn : InputT → outcome KeyT) (convert : InputT → outcome OutputT)
    m_edges (data : InputT) :
  (dom (RouterConvert.on_next write_out key_fn convert m_edges data).2 = dom m_edges ∧
   ∀ k, key_fn data ≠ Return k →
        (RouterConvert.on_next write_out key_fn convert m_edges data).2 !! k = m_edges !! k) ∧
  (dom (Router.on_next write_in key_fn m_edges data).2 = dom m_edges ∧
   ∀ k, key_fn data ≠ Return k →
        (Router.on_next write_in key_fn m_edges data).2 !! k = m_edges !! k) ∧
  (dom (StaticRouterBase.process_one write_in key_fn m_edges data).2 = dom m_edges ∧
   ∀ k, key_fn data ≠ Return k →
        (StaticRouterBase.process_one write_in key_fn m_edges data).2 !! k = m_edges !! k).
Proof.
  split; [apply converting_on_next_frame|].
  split; apply forwarding_on_next_frame.
Qed.

(** X2.  [RouterBase::drop_source(key)] unbinds exactly that key.  An item
    whose key is the dropped one then fails with [error] and nothing is
    written; an item with any other key is handled exactly as it would have
    been without the drop. *)
Theorem router_base_drop_source_is_local
    (await_write : EdgeT → InputT → Status * EdgeT) (key_fn : InputT → outcome KeyT)
    (key : KeyT) m_edges (data : InputT) :
  dom (RouterBase.drop_source key m_edges) = dom m_edges ∖ {[key]} ∧
  (key_fn data = Return key →
   Router.on_next await_write key_fn (RouterBase.drop_source key m_edges) data
   = (Return error, RouterBase.drop_source key m_edges)) ∧
  (∀ k, key_fn data = Return k → k ≠ key →
   Router.on_next await_write key_fn (RouterBase.drop_source key m_edges) data
   = ((Router.on_next await_write key_fn m_edges data).1,
      RouterBase.drop_source key (Router.on_next await_write key_fn m_edges data).2)).
Proof.
  unfold RouterBase.drop_source, MultiSourceProperties.release_edge_connection.
  split; [apply dom_delete_L|]. split.
  - intros Hk. unfold Router.on_next, MultiSourceProperties.get_writable_edge.
    rewrite Hk. simpl. by rewrite lookup_delete_eq.
  - intros k Hk Hne. unfold Router.on_next, MultiSourceProperties.get_writable_edge.
    rewrite Hk. simpl. rewrite lookup_delete_ne by done.
    destruct (m_edges !! k) as [edge|]; simpl; [|done].
    destruct (await_write edge data) as [status edge']. simpl.
    by rewrite delete_insert_ne.
Qed.

(** X5.  After [on_complete] no downstream is bound: the next item leaves
    the edge table empty, and whenever its key function returns a key, or
    throws a [std::exception], the item fails with [error]. *)
Theorem completed_router_fails_every_item
    (await_write : EdgeT → InputT → Status * EdgeT) (key_fn : InputT → outcome KeyT)
    m_edges (downstreams : gmap KeyT (DynamicRouterComponent.Downstream KeyT))
    (data : InputT) :
  let after_base := Router.on_next await_write key_fn (RouterBase.on_complete m_edges) data in
  let after_static :=
    StaticRouterComponentBase.on_next await_write key_fn
      (StaticRouterComponentBase.on_complete m_edges) data in
  let after_dynamic :=
    DynamicRouterComponent.on_next await_write key_fn
      (DynamicRouterComponent.on_complete (DynamicRouterComponent.mk m_edges downstreams))
      data in
  after_base.2 = ∅ ∧ after_static = after_base ∧
  after_dynamic = (after_base.1, DynamicRouterComponent.mk ∅ downstreams) ∧
  (∀ k, key_fn data = Return k → after_base.1 = Return error) ∧
  (∀ cls what, key_fn data = Raise (std_exception cls what) → after_base.1 = Return error).
Proof.
  unfold RouterBase.on_complete, StaticRouterComponentBase.on_complete,
    DynamicRouterComponent.on_complete, StaticRouterComponentBase.on_next,
    StaticRouterBase.process_one, DynamicRouterComponent.on_next,
    DynamicRouterComponent.determine_key_for_value, Router.on_next,
    MultiSourceProperties.release_edge_connections,
    MultiSourceProperties.get_writable_edge.
  simpl. destruct (key_fn data) as [key|[cls what|descr]|d]; simpl;
    rewrite ?lookup_empty; simpl; repeat split; try done.
Qed.

End router_frame.

(** X2 at a concrete router with downstreams "a" and "b": after
    [drop_source "a"] an item for "a" fails and an item for "b" is written
    as before. *)
Lemma router_base_drop_source_is_local_witness :
  let key_fn : string * Z → outcome string := fun data => Return data.1 in
  let edges : gmap string (BufferedChannel (string * Z)) :=
    {["a" := empty_channel; "b" := empty_channel]} in
  Router.on_next channel.await_write key_fn (RouterBase.drop_source "a" edges) ("a", 1%Z)
    = (Return error, RouterBase.drop_source "a" edges) ∧
  Router.on_next channel.await_write key_fn (RouterBase.drop_source "a" edges) ("b", 2%Z)
    = (Return success, {["b" := mk_channel false [("b", 2%Z)]]}).
Proof.
  intros key_fn edges.
  destruct (router_base_drop_source_is_local channel.await_write key_fn "a" edges ("a", 1%Z))
    as (_ & Hdropped & _).
  destruct (router_base_drop_source_is_local channel.await_write key_fn "a" edges ("b", 2%Z))
    as (_ & _ & Hother).
  split.
  - exact (Hdropped eq_refl).
  - rewrite (Hother "b" eq_refl); [|discriminate]. vm_compute. reflexivity.
Defined.

(** ** Forwarding routers: per-key delivery *)

Section forwarding_dispatch.
Context {KeyT : Type} `{Countable KeyT} {InputT : Type}.
Variable key_fn : InputT → outcome KeyT.

Lemma routes_to_spec (k : KeyT) (x : InputT) :
  routes_to key_fn k x = true ↔ key_fn x = Return k.
Proof.
  unfold routes_to. destruct (key_fn x) as [k'|t|d]; [|done..].
  rewrite bool_decide_eq_true. split; [by intros ->|by intros [= ->]].
Qed.

(** X3.  A router that forwards items unchanged ([Router::on_next] without
    conversion, as used by [LambdaRouter] and the static router components)
    over open buffered channels delivers to the downstream of key [k]
    exactly the items the key function maps to [k], unchanged and in arrival
    order; items with another key, with an unbound key, or on which the key
    function throws leave that downstream alone. *)
Theorem forwarding_router_delivers_per_key (items : list InputT)
    (m_edges : gmap KeyT (BufferedChannel InputT)) (k : KeyT) (c : BufferedChannel InputT) :
  m_edges !! k = Some c →
  is_closed c = false →
  (push_all (Router.on_next channel.await_write key_fn) m_edges items).2 !! k
  = Some (mk_channel false (queue c ++ filter (fun x => routes_to key_fn k x) items)).
Proof.
  revert m_edges c. induction items as [|x rest IH]; intros m_edges c Hk Hopen.
  - simpl. rewrite app_nil_r, Hk. destruct c as [cl q]. simpl in Hopen. by subst.
  - rewrite push_all_cons. cbn [snd].
    destruct (forwarding_on_next_frame channel.await_write key_fn m_edges x) as (_ & Hframe).
    destruct (routes_to key_fn k x) eqn:Hr.
    + apply routes_to_spec in Hr as Hx.
      destruct (forwarding_router_handles channel.await_write key_fn m_edges x)
        as (_ & Hbound & _).
      rewrite (Hbound k x c Hx eq_refl Hk). cbn [snd].
      unfold channel.await_write at 2. rewrite Hopen. cbn [snd].
      rewrite (IH _ (mk_channel false (queue c ++ [x]))); [|apply lookup_insert_eq|done].
      rewrite filter_cons_True by (rewrite Hr; exact I).
      cbn [queue]. by rewrite <- app_assoc.
    + rewrite filter_cons_False by (rewrite Hr; exact id).
      apply IH; [|done]. rewrite Hframe; [done|].
      intros Hx. apply routes_to_spec in Hx. congruence.
Qed.

End forwarding_dispatch.

(** X3 at a concrete router keyed by the parity of the item. *)
Lemma forwarding_router_delivers_per_key_witness :
  let key_fn : Z → outcome string := fun x =>
    if decide (x = 0)%Z then Raise (std_exception "std::domain_error" "zero")
    else Return (if Z.even x then "even" else "odd") in
  let edges : gmap string (BufferedChannel Z) := {["even" := empty_channel]} in
  (push_all (Router.on_next channel.await_write key_fn) edges [2; 3; 0; 4; 5]%Z).2 !! "even"
  = Some (mk_channel false [2; 4]%Z).
Proof.
  intros key_fn edges.
  rewrite (forwarding_router_delivers_per_key key_fn [2; 3; 0; 4; 5]%Z edges "even"
             empty_channel eq_refl eq_refl).
  vm_compute. reflexivity.
Defined.

(** ** Dynamic router component: the acceptor table *)

Section dynamic_acceptors.
Context {KeyT : Type} `{Countable KeyT} {EdgeT : Type}.

(** X4.  The acceptors of a [DynamicRouterComponent] are exactly those of
    the route keys given to the constructor, repeated keys counting once.
    [drop_source(key)] removes the acceptor of that key and no other:
    afterwards [has_source(key)] is false and [get_source(key)] throws
    [std::out_of_range], while every other key answers as before; dropping
    a key twice, or a key that has no acceptor, changes nothing further. *)
Theorem dynamic_drop_source_forgets_one_acceptor
    (route_keys : list KeyT) (r : DynamicRouterComponent.t KeyT EdgeT) (key k : KeyT) :
  DynamicRouterComponent.has_source (EdgeT := EdgeT)
    (DynamicRouterComponent.make route_keys) k = bool_decide (k ∈ route_keys) ∧
  DynamicRouterComponent.has_source (DynamicRouterComponent.drop_source key r) k
    = DynamicRouterComponent.has_source r k && bool_decide (k ≠ key) ∧
  DynamicRouterComponent.get_source (DynamicRouterComponent.drop_source key r) k
    = (if decide (k = key) then Raise (std_exception "std::out_of_range" "map::at")
       else DynamicRouterComponent.get_source r k) ∧
  DynamicRouterComponent.drop_source key (DynamicRouterComponent.drop_source key r)
    = DynamicRouterComponent.drop_source key r ∧
  (DynamicRouterComponent.has_source r key = false →
   DynamicRouterComponent.drop_source key r = r).
Proof.
  unfold DynamicRouterComponent.has_source, DynamicRouterComponent.get_source,
    DynamicRouterComponent.drop_source, map_at. simpl.
  split; [|split; [|split; [|split]]].
  - unfold DynamicRouterComponent.make. simpl. rewrite make_downstreams_lookup.
    destruct (decide (k ∈ route_keys)).
    + rewrite !bool_decide_eq_true_2; eauto.
    + rewrite lookup_empty, !bool_decide_eq_false_2; [done..|by intros [? ?]].
  - destruct (decide (k = key)) as [->|Hne].
    + rewrite lookup_delete_eq, (bool_decide_eq_false_2 (key ≠ key)) by tauto.
      rewrite andb_false_r. apply bool_decide_eq_false_2. by intros [? ?].
    + rewrite lookup_delete_ne, (bool_decide_eq_true_2 (k ≠ key)) by done.
      by rewrite andb_true_r.
  - destruct (decide (k = key)) as [->|Hne].
    + by rewrite lookup_delete_eq.
    + by rewrite lookup_delete_ne.
  - f_equal. apply delete_delete_eq.
  - intros Hno. apply bool_decide_eq_false in Hno.
    destruct r as [edges downstreams]. simpl in *. f_equal.
    apply delete_id. destruct (downstreams !! key) eqn:Hd; [|done].
    destruct Hno. eauto.
Qed.

End dynamic_acceptors.

(** ** The runnable router: more on the loop *)

Section runnable_more.
Context {KeyT : Type} `{Countable KeyT} {InputT EdgeT : Type}.
Variable await_write : EdgeT → InputT → Status * EdgeT.
Variable key_fn : InputT → outcome KeyT.

Import StaticRouterRunnableBase.

Abbreviation loop := (StaticRouterRunnableBase.run_loop await_write key_fn).

(** X6.  The loop tests [write_status] only after the next [await_read] has
    returned.  So when the processing of an item [x] returns a status other
    than [success] and the upstream has another item [y], [y] is read from
    the channel and then dropped: the loop exits with [read_status =
    success], the failed write status, and [y] never handed to
    [process_one]. *)
Theorem item_read_after_failed_write_is_dropped
    (f : frame KeyT InputT EdgeT) (x y : InputT) (rest : list (event InputT))
    (status : Status) (m_edges' : gmap KeyT EdgeT) :
  m_stop_source f = false →
  write_status f = success →
  StaticRouterBase.process_one await_write key_fn (m_edges f) x = (Return status, m_edges') →
  status ≠ success →
  loop (Read success x :: Read success y :: rest) f
  = Exited (mk_frame false success status m_edges' (processed f ++ [x])).
Proof.
  intros Hstop Hws Hp Hne. cbn [StaticRouterRunnableBase.run_loop].
  unfold stop_requested. rewrite Hstop, Hws, Hp. cbn.
  by rewrite (bool_decide_eq_false_2 (status = success)).
Qed.

(** X7.  The loop hands items to [process_one] in the order in which the
    reads delivered them, without skipping or repeating any: what it
    processes is an initial stretch of the data of the successful reads of
    the script. *)
Theorem processed_items_are_a_prefix_of_the_reads
    (script : list (event InputT)) (f : frame KeyT InputT EdgeT) :
  ∃ items, processed (frame_of (loop script f)) = processed f ++ items ∧
           items `prefix_of` successful_reads script.
Proof.
  revert f. induction script as [|[state|status data] rest IH]; intros f.
  - exists []. simpl. destruct (stop_requested _); simpl; by rewrite app_nil_r.
  - cbn [StaticRouterRunnableBase.run_loop successful_reads].
    destruct (IH (mk_frame (on_state_update state (m_stop_source f)) (read_status f)
                    (write_status f) (m_edges f) (processed f))) as (items & Hp & Hpre).
    by exists items.
  - cbn [StaticRouterRunnableBase.run_loop successful_reads].
    destruct (stop_requested _).
    { exists []. simpl. rewrite app_nil_r. split; [done|apply prefix_nil]. }
    destruct (bool_decide (status = success)); cbn [andb];
      [|exists []; simpl; rewrite app_nil_r; split; [done|apply prefix_nil]].
    destruct (bool_decide (write_status f = success));
      [|exists []; simpl; rewrite app_nil_r; split; [done|apply prefix_nil]].
    destruct (StaticRouterBase.process_one await_write key_fn (m_edges f) data)
      as [[status'|t|d] m_edges'].
    + destruct (IH (mk_frame (m_stop_source f) status status' m_edges'
                      (processed f ++ [data]))) as (items & Hp & Hpre).
      exists (data :: items). rewrite Hp. simpl. rewrite <- app_assoc. split; [done|].
      by apply prefix_cons.
    + exists [data]. simpl. split; [done|]. apply prefix_cons, prefix_nil.
    + exists [data]. simpl. split; [done|]. apply prefix_cons, prefix_nil.
Qed.

Lemma after_updates_cases (updates : list State) (stop_source : bool) :
  after_updates updates stop_source = stop_source || bool_decide (Kill ∈ updates).
Proof.
  unfold after_updates. revert stop_source.
  induction updates as [|state rest IH]; intros stop_source.
  - cbn [foldl]. rewrite bool_decide_eq_false_2 by apply not_elem_of_nil.
    by rewrite orb_false_r.
  - cbn [foldl]. rewrite IH, on_state_update_cases.
    destruct (decide (state = Kill)) as [->|Hne].
    + rewrite !(bool_decide_eq_true_2 (Kill = Kill)) by done.
      rewrite (bool_decide_eq_true_2 (Kill ∈ Kill :: rest)) by left.
      by rewrite !orb_true_r.
    + rewrite (bool_decide_eq_false_2 (state = Kill)) by done. rewrite orb_false_r.
      f_equal. apply bool_decide_ext. rewrite elem_of_cons.
      split; [by right|]. intros [Heq|Hin]; [congruence|done].
Qed.

Lemma loop_after_updates (updates : list State) (script : list (event InputT))
    (f : frame KeyT InputT EdgeT) :
  loop ((StateUpdate <$> updates) ++ script) f
  = loop script (mk_frame (after_updates updates (m_stop_source f))
                   (read_status f) (write_status f) (m_edges f) (processed f)).
Proof.
  unfold after_updates. revert f. induction updates as [|state rest IH]; intros f.
  - by destruct f.
  - cbn [fmap list_fmap app StaticRouterRunnableBase.run_loop foldl]. by rewrite IH.
Qed.

(** X8.  However many state updates reach the runnable before its next
    test, the stop token afterwards is set exactly when it was set before
    or one of the updates was [Kill]: a [Kill] is never undone by a later
    update and no number of [Stop]s requests a stop.  The loop then goes on
    from that token with everything else as it was. *)
Theorem stop_token_after_state_updates
    (updates : list State) (script : list (event InputT)) (f : frame KeyT InputT EdgeT) :
  after_updates updates (m_stop_source f)
    = m_stop_source f || bool_decide (Kill ∈ updates) ∧
  loop ((StateUpdate <$> updates) ++ script) f
  = loop script (mk_frame (m_stop_source f || bool_decide (Kill ∈ updates))
                   (read_status f) (write_status f) (m_edges f) (processed f)).
Proof.
  split; [apply after_updates_cases|].
  by rewrite loop_after_updates, after_updates_cases.
Qed.

(** X9.  When the stop token is already requested as [run] starts, no
    [await_read] is made and no item is processed, whatever the upstream
    holds; the edges are released; and, [write_status] being [success], the
    only error [run] can raise is the read failure, which it does exactly
    when the never-assigned [read_status] happens to hold [error]. *)
Theorem run_entered_with_stop_requested
    (script : list (event InputT)) (indeterminate : Status) (edges : gmap KeyT EdgeT) :
  StaticRouterRunnableBase.run await_write key_fn script indeterminate true edges
  = Finished (if decide (indeterminate = error) then Raise read_failure else Return ())
             (mk_frame true indeterminate success ∅ []).
Proof.
  unfold StaticRouterRunnableBase.run.
  destruct (run_loop_stopped await_write key_fn script
              (mk_frame true indeterminate success edges []))
    as (f' & -> & Hstop & Hrs & Hws & Hedges & Hproc); [done|].
  destruct f' as [stop rs ws m p]. simpl in *. subst.
  unfold exit_checks. by destruct (decide (indeterminate = error)).
Qed.

(** X10.  The runnable router and the component router deliver alike.  If
    pushing the items one by one through the component's [on_next] gives
    [success] every time, then the runnable's loop, fed the same items by
    successful reads and then a [closed] upstream, processes all of them,
    leaves the same edge table as the component, and exits with
    [read_status = closed] and [write_status = success]. *)
Theorem runnable_router_delivers_like_component
    (items : list InputT) (junk : InputT) (f : frame KeyT InputT EdgeT) :
  m_stop_source f = false →
  write_status f = success →
  Forall (fun o => o = Return success)
    (push_all (StaticRouterComponentBase.on_next await_write key_fn) (m_edges f) items).1 →
  loop ((Read success <$> items) ++ [Read closed junk]) f
  = Exited (mk_frame false closed success
              (push_all (StaticRouterComponentBase.on_next await_write key_fn)
                 (m_edges f) items).2
              (processed f ++ items)).
Proof.
  revert f. induction items as [|x rest IH]; intros f Hstop Hws Hall.
  - cbn. unfold stop_requested. rewrite Hstop, Hws. cbn. by rewrite app_nil_r.
  - rewrite push_all_cons in Hall |- *. cbn [fst snd] in Hall |- *.
    apply Forall_cons in Hall as [Hx Hrest].
    unfold StaticRouterComponentBase.on_next in Hx, Hrest |- *.
    cbn [fmap list_fmap app StaticRouterRunnableBase.run_loop].
    unfold stop_requested. rewrite Hstop, Hws.
    rewrite !bool_decide_eq_true_2 by done. cbn [andb].
    destruct (StaticRouterBase.process_one await_write key_fn (m_edges f) x)
      as [o m_edges'] eqn:Hp.
    cbn [fst snd] in Hx, Hrest |- *. subst o.
    rewrite (IH (mk_frame false success success m_edges' (processed f ++ [x])));
      [|done|done|exact Hrest].
    cbn. by rewrite <- app_assoc.
Qed.

End runnable_more.

(** X6 at a concrete run: the item for the unbound key "z" fails, and the
    item for "a" that follows is read but never written. *)
Lemma item_read_after_failed_write_is_dropped_witness :
  let key_fn : string * Z → outcome string := fun data => Return data.1 in
  let edges : gmap string (BufferedChannel (string * Z)) := {["a" := empty_channel]} in
  StaticRouterRunnableBase.run_loop channel.await_write key_fn
    [StaticRouterRunnableBase.Read success ("z", 1%Z);
     StaticRouterRunnableBase.Read success ("a", 2%Z);
     StaticRouterRunnableBase.Read closed ("a", 2%Z)]
    (StaticRouterRunnableBase.mk_frame false timeout success edges [])
  = StaticRouterRunnableBase.Exited
      (StaticRouterRunnableBase.mk_frame false success error edges [("z", 1%Z)]).
Proof.
  intros key_fn edges.
  apply (item_read_after_failed_write_is_dropped channel.await_write key_fn
           (StaticRouterRunnableBase.mk_frame false timeout success edges [])
           ("z", 1%Z) ("a", 2%Z) _ error edges);
    [reflexivity|reflexivity|reflexivity|discriminate].
Defined.

(** X10 at a concrete run: two items for the bound key "a". *)
Lemma runnable_router_delivers_like_component_witness :
  let key_fn : string * Z → outcome string := fun data => Return data.1 in
  let edges : gmap string (BufferedChannel (string * Z)) := {["a" := empty_channel]} in
  StaticRouterRunnableBase.run_loop channel.await_write key_fn
    [StaticRouterRunnableBase.Read success ("a", 1%Z);
     StaticRouterRunnableBase.Read success ("a", 2%Z);
     StaticRouterRunnableBase.Read closed ("a", 0%Z)]
    (StaticRouterRunnableBase.mk_frame false timeout success edges [])
  = StaticRouterRunnableBase.Exited
      (StaticRouterRunnableBase.mk_frame false closed success
         {["a" := mk_channel false [("a", 1%Z); ("a", 2%Z)]]}
         [("a", 1%Z); ("a", 2%Z)]).
Proof.
  intros key_fn edges.
  refine (eq_trans
            (runnable_router_delivers_like_component channel.await_write key_fn
               [("a", 1%Z); ("a", 2%Z)] ("a", 0%Z)
               (StaticRouterRunnableBase.mk_frame false timeout success edges [])
               eq_refl eq_refl _) _).
  - vm_compute. repeat constructor.
  - vm_compute. reflexivity.
Defined.

(** ** Building the normalized state *)

Section wrap_each.
Context {M : Type}.
Implicit Types (entities views : gmap N M) (ids : list N).

Lemma wrap_each_all_present entities ids views :
  Forall (fun id => is_Some (entities !! id)) ids →
  ∃ result, state.wrap_each entities ids views = Return result ∧
    ∀ id, result !! id
          = match views !! id with
            | Some old => Some old
            | None => if decide (id ∈ ids) then entities !! id else None
            end.
Proof.
  intros Hall. revert views.
  induction Hall as [|key ids [v Hv] _ IH]; intros views.
  - exists views. split; [done|]. intros id.
    destruct (views !! id); [done|]. by rewrite decide_False by apply not_elem_of_nil.
  - cbn [state.wrap_each]. unfold protos.Map_at. rewrite Hv. simpl.
    destruct (IH (state.emplace key v views)) as (result & -> & Hres).
    exists result. split; [done|]. intros id. rewrite Hres, emplace_lookup.
    destruct (views !! id) as [old|]; [done|].
    destruct (decide (id = key)) as [->|Hne].
    + rewrite decide_True by left. done.
    + destruct (decide (id ∈ ids)) as [Hin|Hin].
      * rewrite decide_True by (by right). done.
      * rewrite decide_False; [done|].
        intros Hc. apply elem_of_cons in Hc. by destruct Hc.
Qed.

Lemma wrap_each_some_missing entities ids views :
  ¬ Forall (fun id => is_Some (entities !! id)) ids →
  (∃ t, state.wrap_each entities ids views = Raise t) ∨
  (∃ d, state.wrap_each entities ids views = Abort d).
Proof.
  revert views. induction ids as [|key ids IH]; intros views Hnot.
  - destruct Hnot. constructor.
  - cbn [state.wrap_each]. unfold protos.Map_at.
    destruct (entities !! key) as [v|] eqn:Hv; [|right; by eexists]. simpl.
    apply IH. intros Hall. apply Hnot. constructor; [by rewrite Hv|done].
Qed.

Lemma wrap_table_complete (tbl : protos.table M) :
  complete tbl → ∃ views, state.wrap_table tbl = Return views ∧ keeps_listed tbl views.
Proof.
  intros Hc. destruct (wrap_each_all_present _ _ ∅ Hc) as (views & Hw & Hl).
  exists views. split; [done|]. intros id. by rewrite Hl, lookup_empty.
Qed.

Lemma wrap_table_incomplete (tbl : protos.table M) :
  ¬ complete tbl →
  (∃ t, state.wrap_table tbl = Raise t) ∨ (∃ d, state.wrap_table tbl = Abort d).
Proof. apply wrap_each_some_missing. Qed.

End wrap_each.

(** X11.  [ControlPlaneNormalizedState::create] succeeds when, in each of
    the six tables of the root message, every id of the [ids] list has an
    entity.  The snapshot then carries the root's nonce, and each of its six
    maps holds exactly the listed ids, each with the entity the root stores
    under it: an entity that is stored but not listed is not part of the
    normalized view. *)
Theorem create_keeps_the_listed_entities (root_message : protos.ControlPlaneState) :
  complete (protos.executors root_message) →
  complete (protos.workers root_message) →
  complete (protos.pipeline_definitions root_message) →
  complete (protos.pipeline_instances root_message) →
  complete (protos.manifold_instances root_message) →
  complete (protos.segment_instances root_message) →
  ∃ snapshot, state.create root_message = Return snapshot ∧
    state.nonce snapshot = protos.nonce root_message ∧
    keeps_listed (protos.executors root_message) (state.executors snapshot) ∧
    keeps_listed (protos.workers root_message) (state.workers snapshot) ∧
    keeps_listed (protos.pipeline_definitions root_message)
      (state.pipeline_definitions snapshot) ∧
    keeps_listed (protos.pipeline_instances root_message)
      (state.pipeline_instances snapshot) ∧
    keeps_listed (protos.manifold_instances root_message)
      (state.manifold_instances snapshot) ∧
    keeps_listed (protos.segment_instances root_message)
      (state.segment_instances snapshot).
Proof.
  intros He Hw Hpd Hpi Hmi Hsi. unfold state.create.
  destruct (wrap_table_complete _ He) as (e & -> & ?).
  destruct (wrap_table_complete _ Hw) as (w & -> & ?).
  destruct (wrap_table_complete _ Hpd) as (pd & -> & ?).
  destruct (wrap_table_complete _ Hpi) as (pi & -> & ?).
  destruct (wrap_table_complete _ Hmi) as (mi & -> & ?).
  destruct (wrap_table_complete _ Hsi) as (si & -> & ?).
  simpl. eexists. split; [reflexivity|]. simpl. done.
Qed.

(** X11 on a root message with one listed and one unlisted worker. *)
Lemma create_keeps_the_listed_entities_witness :
  let listed := protos.Worker.mk 1 "ucx://w1" 7 [] in
  let unlisted := protos.Worker.mk 2 "ucx://w2" 7 [] in
  let root_message :=
    protos.mk_ControlPlaneState 42
      (protos.mk_table [] ∅)
      (protos.mk_table [1%N] {[ 1%N := listed; 2%N := unlisted ]})
      (protos.mk_table [] ∅) (protos.mk_table [] ∅)
      (protos.mk_table [] ∅) (protos.mk_table [] ∅) in
  ∃ snapshot, state.create root_message = Return snapshot ∧
    state.nonce snapshot = 42%N ∧
    state.workers snapshot !! 1%N = Some listed ∧
    state.workers snapshot !! 2%N = None.
Proof.
  intros listed unlisted root_message.
  destruct (create_keeps_the_listed_entities root_message)
    as (snapshot & Hcreate & Hnonce & _ & Hworkers & _);
    [by repeat constructor
    |repeat constructor; exists listed; reflexivity
    |by repeat constructor..|].
  exists snapshot. split; [exact Hcreate|]. split; [exact Hnonce|].
  rewrite !Hworkers. split; reflexivity.
Defined.

(** X12.  [create] yields no snapshot when some table lists an id for
    which it stores no entity: [initialize] looks every listed id up with
    protobuf's [Map::at], whose check fails on the absent key, so the call
    never returns a normalized state. *)
Theorem create_yields_no_snapshot_on_a_dangling_id (root_message : protos.ControlPlaneState) :
  ¬ (complete (protos.executors root_message) ∧
     complete (protos.workers root_message) ∧
     complete (protos.pipeline_definitions root_message) ∧
     complete (protos.pipeline_instances root_message) ∧
     complete (protos.manifold_instances root_message) ∧
     complete (protos.segment_instances root_message)) →
  ¬ ∃ snapshot, state.create root_message = Return snapshot.
Proof.
  intros Hnot [snapshot Hcreate]. revert Hcreate. unfold state.create.
  destruct (decide (complete (protos.executors root_message))) as [He|He];
    [|by destruct (wrap_table_incomplete _ He) as [[t ->]|[d ->]]].
  destruct (wrap_table_complete _ He) as (e & -> & _). simpl.
  destruct (decide (complete (protos.workers root_message))) as [Hw|Hw];
    [|by destruct (wrap_table_incomplete _ Hw) as [[t ->]|[d ->]]].
  destruct (wrap_table_complete _ Hw) as (w & -> & _). simpl.
  destruct (decide (complete (protos.pipeline_definitions root_message))) as [Hpd|Hpd];
    [|by destruct (wrap_table_incomplete _ Hpd) as [[t ->]|[d ->]]].
  destruct (wrap_table_complete _ Hpd) as (pd & -> & _). simpl.
  destruct (decide (complete (protos.pipeline_instances root_message))) as [Hpi|Hpi];
    [|by destruct (wrap_table_incomplete _ Hpi) as [[t ->]|[d ->]]].
  destruct (wrap_table_complete _ Hpi) as (pi & -> & _). simpl.
  destruct (decide (complete (protos.manifold_instances root_message))) as [Hmi|Hmi];
    [|by destruct (wrap_table_incomplete _ Hmi) as [[t ->]|[d ->]]].
  destruct (wrap_table_complete _ Hmi) as (mi & -> & _). simpl.
  destruct (decide (complete (protos.segment_instances root_message))) as [Hsi|Hsi];
    [|by destruct (wrap_table_incomplete _ Hsi) as [[t ->]|[d ->]]].
  destruct Hnot. done.
Qed.

(** X12 on a root message that lists segment instance 5 and stores none. *)
Lemma create_yields_no_snapshot_on_a_dangling_id_witness :
  ¬ ∃ snapshot,
      state.create
        (protos.mk_ControlPlaneState 0
           (protos.mk_table [] ∅) (protos.mk_table [] ∅) (protos.mk_table [] ∅)
           (protos.mk_table [] ∅) (protos.mk_table [] ∅) (protos.mk_table [5%N] ∅))
      = Return snapshot.
Proof.
  apply create_yields_no_snapshot_on_a_dangling_id.
  intros (_ & _ & _ & _ & _ & Hsi).
  apply Forall_cons in Hsi as [[v Hv] _]. discriminate Hv.
Defined.

(** ** List-valued accessors *)

(** X13.  A list-valued accessor depends on its id list only as a set: two
    lists with the same members, in whatever order and with whatever
    repetitions, give the same map of children, or both throw
    [std::out_of_range]. *)
Theorem list_accessors_ignore_order_and_repeats {V : Type}
    (map_obj : gmap N V) (ids ids' : list N) :
  (∀ id, id ∈ ids ↔ id ∈ ids') →
  state.collect map_obj ids ∅ = state.collect map_obj ids' ∅.
Proof.
  intros Hsame.
  destruct (decide (Forall (fun id => is_Some (map_obj !! id)) ids)) as [Hall|Hnot].
  - assert (Forall (fun id => is_Some (map_obj !! id)) ids') as Hall'.
    { apply Forall_forall. intros id Hin. apply Hsame in Hin.
      by eapply Forall_forall in Hall. }
    destruct (collect_all_present map_obj ids ∅ Hall) as (r & -> & Hr).
    destruct (collect_all_present map_obj ids' ∅ Hall') as (r' & -> & Hr').
    f_equal. apply map_eq. intros id. rewrite Hr, Hr', lookup_empty.
    destruct (decide (id ∈ ids)) as [Hin|Hin].
    + rewrite decide_True; [done|by apply Hsame].
    + rewrite decide_False; [done|]. intros Hin'. by apply Hin, Hsame.
  - assert (¬ Forall (fun id => is_Some (map_obj !! id)) ids') as Hnot'.
    { intros Hall'. apply Hnot, Forall_forall. intros id Hin. apply Hsame in Hin.
      by eapply Forall_forall in Hall'. }
    by rewrite !collect_some_missing.
Qed.

(** X13 on [Executor::workers]: the worker ids [1; 2; 1] and [2; 1] give the
    same children. *)
Lemma list_accessors_ignore_order_and_repeats_witness :
  let w1 := protos.Worker.mk 1 "ucx://w1" 7 [] in
  let w2 := protos.Worker.mk 2 "ucx://w2" 7 [] in
  let snapshot := state.mk_state 0 ∅ {[ 1%N := w1; 2%N := w2 ]} ∅ ∅ ∅ ∅ in
  state.Executor.workers snapshot (protos.Executor.mk 7 "peer" [1%N; 2%N; 1%N] [] [])
  = state.Executor.workers snapshot (protos.Executor.mk 7 "peer" [2%N; 1%N] [] []).
Proof.
  intros w1 w2 snapshot.
  apply (list_accessors_ignore_order_and_repeats (state.workers snapshot)
           [1%N; 2%N; 1%N] [2%N; 1%N]).
  intros id. rewrite !elem_of_cons, elem_of_nil. tauto.
Defined.

(** ** Wrapper equality as a relation *)

Section wrapper_relation.
Import ControlPlaneStateBase.
Variable MessageToJsonString : Message → string.

Lemma Equals_sym (a b : Message) : Equals a b = Equals b a.
Proof.
  destruct (Equals a b) eqn:Hab, (Equals b a) eqn:Hba; try done.
  - apply Equals_correct in Hab. subst. by rewrite (proj2 (Equals_correct b b)) in Hba.
  - apply Equals_correct in Hba. subst. by rewrite (proj2 (Equals_correct a a)) in Hab.
Qed.

(** X14.  On wrappers whose references are live, [operator==] is an
    equivalence: every wrapper equals itself, the answer does not depend on
    which side is [this], and equality is transitive.  A comparison that
    involves a dangling reference has no answer, whichever side it is on. *)
Theorem wrapper_equality_is_an_equivalence (heap : gmap N Message) (a b c : t) :
  (is_Some (heap !! m_internal_message a) →
   operator_eq MessageToJsonString heap a a = Some true) ∧
  operator_eq MessageToJsonString heap a b = operator_eq MessageToJsonString heap b a ∧
  (operator_eq MessageToJsonString heap a b = Some true →
   operator_eq MessageToJsonString heap b c = Some true →
   operator_eq MessageToJsonString heap a c = Some true) ∧
  (is_Some (operator_eq MessageToJsonString heap a b)
   ↔ is_Some (heap !! m_internal_message a) ∧ is_Some (heap !! m_internal_message b)).
Proof.
  unfold operator_eq. split; [|split; [|split]].
  - intros [ma ->]. simpl. f_equal. by apply Equals_correct.
  - destruct (heap !! m_internal_message a) as [ma|],
             (heap !! m_internal_message b) as [mb|]; simpl; try done.
    f_equal. apply Equals_sym.
  - destruct (heap !! m_internal_message a) as [ma|]; simpl; [|done].
    destruct (heap !! m_internal_message b) as [mb|]; simpl; [|done].
    destruct (heap !! m_internal_message c) as [mc|]; simpl; [|done].
    intros Hab Hbc. injection Hab as Hab. injection Hbc as Hbc.
    apply Equals_correct in Hab, Hbc. subst. f_equal. by apply Equals_correct.
  - destruct (heap !! m_internal_message a) as [ma|],
             (heap !! m_internal_message b) as [mb|]; simpl.
    + split; eauto.
    + split; [by intros [? ?]|by intros [_ [? ?]]].
    + split; [by intros [? ?]|by intros [[? ?] _]].
    + split; [by intros [? ?]|by intros [[? ?] _]].
Qed.

End wrapper_relation.

(** ** Thread engines: which bindings the launchers get *)

Section thread_engine_bindings.
Context {CpuSet SystemResources : Type}.
Variable next_binding : CpuSet → CpuSet * CpuSet.

Lemma for_each_pe_unfolds (remaining : nat) (self : ThreadEngines.t CpuSet SystemResources) :
  ThreadEngines.for_each_pe next_binding remaining self
  = ThreadEngines.mk (ThreadEngines.launch_options self)
      (advance next_binding remaining (ThreadEngines.m_cpu_set self))
      (ThreadEngines.m_system self)
      (ThreadEngines.launchers self
       ++ ((fun binding => ThreadEngines.mk_ThreadEngine binding (ThreadEngines.m_system self))
             <$> bindings next_binding remaining (ThreadEngines.m_cpu_set self))).
Proof.
  revert self. induction remaining as [|n IH]; intros self.
  - simpl. rewrite app_nil_r. by destruct self.
  - cbn [ThreadEngines.for_each_pe bindings advance fmap list_fmap].
    destruct (next_binding (ThreadEngines.m_cpu_set self)) as [binding cpu_set'].
    rewrite IH. simpl. by rewrite <- app_assoc.
Qed.

(** X15.  The constructor of [ThreadEngines] calls [next_binding] once per
    PE, in order: its launchers are the first [pe_count] bindings the CPU set
    hands out, each paired with the same system resources; the CPU set is
    left advanced by [pe_count] bindings and the launch options are kept.
    With [pe_count = 0] there is no launcher and the CPU set is untouched. *)
Theorem thread_engines_take_successive_bindings
    (options : ThreadEngines.LaunchOptions) (cpu_set : CpuSet) (system : SystemResources) :
  ThreadEngines.make next_binding options cpu_set system
  = ThreadEngines.mk options
      (advance next_binding (ThreadEngines.pe_count options) cpu_set)
      system
      ((fun binding => ThreadEngines.mk_ThreadEngine binding system)
         <$> bindings next_binding (ThreadEngines.pe_count options) cpu_set) ∧
  (ThreadEngines.pe_count options = 0 →
   ThreadEngines.make next_binding options cpu_set system
   = ThreadEngines.mk options cpu_set system []).
Proof.
  unfold ThreadEngines.make, ThreadEngines.initialize_launchers.
  rewrite for_each_pe_unfolds. simpl. split; [done|]. by intros ->.
Qed.

End thread_engine_bindings.

(** X15 with a CPU set that hands out its CPUs round-robin: three PEs on the
    CPUs 4 and 6 are bound to 4, 6 and 4 again. *)
Example thread_engines_round_robin :
  let next_binding (cpu_set : list nat) : list nat * list nat :=
    match cpu_set with
    | [] => ([], [])
    | cpu :: others => ([cpu], others ++ [cpu])
    end in
  ThreadEngines.cpu_binding
    <$> ThreadEngines.launchers
          (ThreadEngines.make next_binding
             (ThreadEngines.mk_LaunchOptions "custom_options" 3 1) [4; 6] ())
  = [[4]; [6]; [4]].
Proof. reflexivity. Qed.

(** ** Publisher manager *)

Section publisher_manager.
Context {InstanceID Endpoint : Type}.
Variable role_subscriber : string.
Variable endpoint_shared : InstanceID → Endpoint.
Variable debug_build : bool.

Lemma endpoints_after_loop (entries : list (N * InstanceID)) (endpoints : gmap N Endpoint)
    (tag : N) :
  NoDup entries.*1 →
  foldl (fun endpoints '(tag, instance_id) =>
           <[tag := endpoint_shared instance_id]> endpoints) endpoints entries !! tag
  = match (list_to_map entries : gmap N InstanceID) !! tag with
    | Some instance_id => Some (endpoint_shared instance_id)
    | None => endpoints !! tag
    end.
Proof.
  revert endpoints. induction entries as [|[t i] rest IH]; intros endpoints Hnd.
  - done.
  - cbn [foldl]. rewrite list_to_map_cons. apply NoDup_cons in Hnd as [Hnotin Hnd].
    rewrite (IH _ Hnd). destruct (decide (tag = t)) as [->|Hne].
    + rewrite (not_elem_of_list_to_map_1 rest t Hnotin), !lookup_insert_eq. done.
    + rewrite !lookup_insert_ne by congruence. done.
Qed.

(** X16.  [update_tagged_instances], called with the subscriber role,
    replaces the tagged instances by the new map and hands the same map to
    the publisher; it sets the endpoint of every tag of the new map to the
    endpoint of its instance, and leaves the endpoint of every other tag as
    it was.  So every tagged instance has an endpoint afterwards, and an
    endpoint, once recorded, is never removed: the endpoints of tags that
    are no longer instances stay in [tagged_endpoints()]. *)
Theorem update_tagged_instances_keeps_stale_endpoints
    (new_instances : gmap N InstanceID) (self : PublisherManager.t InstanceID Endpoint) :
  ∃ self',
    PublisherManager.update_tagged_instances role_subscriber endpoint_shared debug_build
      role_subscriber new_instances self = Return self' ∧
    PublisherManager.tagged_instances self' = new_instances ∧
    PublisherManager.publisher_tagged_instances self' = new_instances ∧
    (∀ tag, PublisherManager.tagged_endpoints self' !! tag
            = match new_instances !! tag with
              | Some instance_id => Some (endpoint_shared instance_id)
              | None => PublisherManager.tagged_endpoints self !! tag
              end) ∧
    dom (PublisherManager.tagged_instances self')
      ⊆ dom (PublisherManager.tagged_endpoints self') ∧
    dom (PublisherManager.tagged_endpoints self)
      ⊆ dom (PublisherManager.tagged_endpoints self').
Proof.
  unfold PublisherManager.update_tagged_instances, PublisherManager.DCHECK_EQ.
  rewrite (bool_decide_eq_true_2 (role_subscriber = role_subscriber)) by done.
  rewrite andb_false_r. simpl.
  eexists. split; [reflexivity|].
  unfold PublisherManager.tagged_instances, PublisherManager.tagged_endpoints. simpl.
  assert (∀ tag,
    foldl (fun endpoints '(tag, instance_id) =>
             <[tag := endpoint_shared instance_id]> endpoints)
      (PublisherManager.m_tagged_endpoints self) (map_to_list new_instances) !! tag
    = match new_instances !! tag with
      | Some instance_id => Some (endpoint_shared instance_id)
      | None => PublisherManager.m_tagged_endpoints self !! tag
      end) as Hlookup.
  { intros tag. rewrite endpoints_after_loop by apply NoDup_fst_map_to_list.
    by rewrite list_to_map_to_list. }
  split; [done|]. split; [done|]. split; [exact Hlookup|]. split.
  - intros tag Hin. apply elem_of_dom in Hin as [i Hi].
    apply elem_of_dom. rewrite Hlookup, Hi. eauto.
  - intros tag Hin. apply elem_of_dom in Hin as [e He].
    apply elem_of_dom. rewrite Hlookup, He. destruct (new_instances !! tag); eauto.
Qed.

(** In a debug build a call with any other role stops at the [DCHECK_EQ];
    in a release build the role is not looked at. *)
Lemma update_tagged_instances_role (role : string) (new_instances : gmap N InstanceID)
    (self : PublisherManager.t InstanceID Endpoint) :
  role ≠ role_subscriber →
  PublisherManager.update_tagged_instances role_subscriber endpoint_shared debug_build
    role new_instances self
  = if debug_build then Abort "Check failed"
    else PublisherManager.update_tagged_instances role_subscriber endpoint_shared
           debug_build role_subscriber new_instances self.
Proof.
  intros Hne. unfold PublisherManager.update_tagged_instances, PublisherManager.DCHECK_EQ.
  rewrite (bool_decide_eq_false_2 (role = role_subscriber)) by done.
  rewrite (bool_decide_eq_true_2 (role_subscriber = role_subscriber)) by done.
  by destruct debug_build.
Qed.

End publisher_manager.

(** X16 on two updates in a row: tag 2 is an instance after the first update
    and not after the second, and its endpoint is still there. *)
Example stale_endpoint_after_two_updates :
  let endpoint_shared (instance_id : N) : string := "endpoint" in
  let update := PublisherManager.update_tagged_instances "subscriber" endpoint_shared true
                  "subscriber" in
  let start := PublisherManager.mk ∅ ∅ ∅ in
  ∃ first second,
    update {[ 1%N := 10%N; 2%N := 20%N ]} start = Return first ∧
    update {[ 1%N := 10%N ]} first = Return second ∧
    PublisherManager.tagged_instances second !! 2%N = None ∧
    PublisherManager.tagged_endpoints second !! 2%N = Some "endpoint".
Proof.
  eexists _, _. split; [vm_compute; reflexivity|]. split; [vm_compute; reflexivity|].
  split; reflexivity.
Qed.
